(** * uber-eats-tracker: scraper parsing, table expansion, extraction and bulk ingest

    A shallow embedding of
    - [apps/scraper/src/parser.ts]  (module [Parser]),
    - [apps/scraper/src/index.ts]   (module [Scraper]),
    - the API's database module (module [Db]),
    - the API's bulk endpoint (module [Api]),
    - the web app's bucket aggregation, keys and labels (module [Web]),
    over a small model of the JavaScript runtime they rely on (module [JS]):
    strings as sequences of UTF-16 code units, the whitespace class shared by
    [\s] and [String.prototype.trim], and Number values as IEEE-754 doubles
    with [Number(string)] and [Number::toString]. *)

From Stdlib Require Import String Ascii ZArith NArith List Bool Lia.
From Stdlib Require Import Floats.SpecFloat.
From Stdlib Require Import Sorting.Sorted Sorting.Permutation.
From Stdlib Require DecimalN.
Import ListNotations.

Set Implicit Arguments.

(* ================================================================== *)
(** ** The JavaScript runtime the sources rely on *)
(* ================================================================== *)

Module JS.

(** *** Strings *)

(** A JavaScript string is a finite sequence of UTF-16 code units. *)
Definition code_unit := N.
Definition jsstring := list code_unit.

(** ASCII literals. *)
Definition js (s : string) : jsstring :=
  List.map N_of_ascii (list_ascii_of_string s).

Definition jsstring_eqb (a b : jsstring) : bool :=
  if list_eq_dec N.eq_dec a b then true else false.

Definition SPACE : code_unit := 32%N.
Definition DOLLAR : code_unit := 36%N.
Definition PLUS : code_unit := 43%N.
Definition COMMA : code_unit := 44%N.
Definition MINUS : code_unit := 45%N.
Definition DOT : code_unit := 46%N.
Definition UNDERSCORE : code_unit := 95%N.

(** WhiteSpace and LineTerminator code points: the class matched by [\s] and
    stripped by [trim]. *)
Definition isWhiteSpace (c : code_unit) : bool :=
  ((9 <=? c) && (c <=? 13) || (c =? 32) || (c =? 160) || (c =? 5760)
   || (8192 <=? c) && (c <=? 8202) || (c =? 8232) || (c =? 8233)
   || (c =? 8239) || (c =? 8287) || (c =? 12288) || (c =? 65279))%N.

(** [\d] (no unicode flag): the ASCII digits. *)
Definition isDigit (c : code_unit) : bool := ((48 <=? c) && (c <=? 57))%N.

Fixpoint takeWhile (p : code_unit -> bool) (s : jsstring) : jsstring :=
  match s with
  | [] => []
  | c :: rest => if p c then c :: takeWhile p rest else []
  end.

Fixpoint dropWhile (p : code_unit -> bool) (s : jsstring) : jsstring :=
  match s with
  | [] => []
  | c :: rest => if p c then dropWhile p rest else s
  end.

Definition trimStart (s : jsstring) : jsstring := dropWhile isWhiteSpace s.
Definition trimEnd (s : jsstring) : jsstring := rev (dropWhile isWhiteSpace (rev s)).

(** [String.prototype.trim]. *)
Definition trim (s : jsstring) : jsstring := trimEnd (trimStart s).

(** [s.split(sep)] for a one-code-unit separator: always at least one segment. *)
Fixpoint split (sep : code_unit) (s : jsstring) : list jsstring :=
  match s with
  | [] => [[]]
  | c :: rest =>
      if (c =? sep)%N then [] :: split sep rest
      else match split sep rest with
           | seg :: segs => (c :: seg) :: segs
           | [] => [[c]]
           end
  end.

(** [segments.join(sep)]. *)
Fixpoint join (sep : jsstring) (segments : list jsstring) : jsstring :=
  match segments with
  | [] => []
  | [seg] => seg
  | seg :: rest => seg ++ sep ++ join sep rest
  end.

(** [haystack.includes(needle)], which is also what an unanchored literal
    regular expression tests. *)
Fixpoint startsWith (needle s : jsstring) : bool :=
  match needle, s with
  | [], _ => true
  | _ :: _, [] => false
  | a :: needle', b :: s' => (a =? b)%N && startsWith needle' s'
  end.

Fixpoint includes (needle s : jsstring) : bool :=
  startsWith needle s ||
  match s with
  | [] => false
  | _ :: rest => includes needle rest
  end.

(** *** Number values *)

(** A Number is an IEEE-754 binary64 value: [S754_finite s m e] is
    [(-1)^s * m * 2^e]. *)
Definition number := spec_float.

Definition isNaN (x : number) : bool :=
  match x with S754_nan => true | _ => false end.

(** Nearest integer to [p / q] ([0 <= p], [0 < q]), ties to even. *)
Definition roundHalfEven (p q : Z) : Z :=
  let d := (p / q)%Z in
  match (2 * (p mod q) ?= q)%Z with
  | Lt => d
  | Gt => (d + 1)%Z
  | Eq => if Z.even d then d else (d + 1)%Z
  end.

(** [p / q / 2^e] as a fraction of integers. *)
Definition scaleBy (p q e : Z) : Z * Z :=
  if (0 <=? e)%Z then (p, q * 2 ^ e)%Z else (p * 2 ^ (- e), q)%Z.

(** The Number value for the rational [p / q] with [0 <= p], [0 < q]:
    round to nearest binary64, ties to even, overflow to Infinity. *)
Definition numberOfRational (neg : bool) (p q : Z) : number :=
  if (p <=? 0)%Z then S754_zero neg
  else
    let e0 := (Z.log2 p - Z.log2 q - 52)%Z in
    let '(a0, b0) := scaleBy p q e0 in
    let e1 := if (a0 <? b0 * 2 ^ 52)%Z then (e0 - 1)%Z else e0 in
    let e2 := Z.max e1 (-1074) in
    let '(a, b) := scaleBy p q e2 in
    let m := roundHalfEven a b in
    let '(m', e') := if (m =? 2 ^ 53)%Z then (2 ^ 52, e2 + 1)%Z else (m, e2) in
    match m' with
    | Zpos mp => if (971 <? e')%Z then S754_infinity neg else S754_finite neg mp e'
    | _ => S754_zero neg
    end.

(** The Number value for [d * 10^x]. *)
Definition numberOfDecimal (neg : bool) (d x : Z) : number :=
  if (0 <=? x)%Z then numberOfRational neg (d * 10 ^ x) 1
  else numberOfRational neg d (10 ^ (- x)).

(** Digit strings. *)
Definition digitValue (c : code_unit) : Z := Z.of_N (c - 48).

Definition valueOfDigits (base : Z) (ds : jsstring) : Z :=
  fold_left (fun acc c => (acc * base + digitValue c)%Z) ds 0%Z.

Definition isExponentIndicator (c : code_unit) : bool :=
  ((c =? 101) || (c =? 69))%N.

Definition isEmpty (s : jsstring) : bool :=
  match s with [] => true | _ => false end.

(** [SignedInteger] after an exponent indicator, up to the end of the text. *)
Definition parseSignedInteger (s : jsstring) : option Z :=
  let '(neg, ds) :=
    match s with
    | c :: rest =>
        if (c =? PLUS)%N then (false, rest)
        else if (c =? MINUS)%N then (true, rest)
        else (false, s)
    | [] => (false, [])
    end in
  if negb (isEmpty ds) && forallb isDigit ds
  then Some (if neg then (- valueOfDigits 10 ds)%Z else valueOfDigits 10 ds)
  else None.

(** [StrUnsignedDecimalLiteral]: [Infinity], [digits . digits? exp?],
    [. digits exp?] or [digits exp?]; anything else is NaN. *)
Definition strUnsignedDecimalLiteral (neg : bool) (s : jsstring) : number :=
  if jsstring_eqb s (js "Infinity") then S754_infinity neg
  else
    let ip := takeWhile isDigit s in
    let afterInt := dropWhile isDigit s in
    let '(fp, afterFrac) :=
      match afterInt with
      | c :: r =>
          if (c =? DOT)%N then (takeWhile isDigit r, dropWhile isDigit r)
          else ([], afterInt)
      | [] => ([], [])
      end in
    if isEmpty ip && isEmpty fp then S754_nan
    else
      let mantissa := valueOfDigits 10 (ip ++ fp) in
      let scale := Z.of_nat (length fp) in
      match afterFrac with
      | [] => numberOfDecimal neg mantissa (- scale)
      | c :: r =>
          if isExponentIndicator c then
            match parseSignedInteger r with
            | Some x => numberOfDecimal neg mantissa (x - scale)
            | None => S754_nan
            end
          else S754_nan
      end.

Definition radixDigitValue (base : Z) (c : code_unit) : option Z :=
  let v :=
    if isDigit c then Some (digitValue c)
    else if ((97 <=? c) && (c <=? 102))%N then Some (Z.of_N (c - 87))
    else if ((65 <=? c) && (c <=? 70))%N then Some (Z.of_N (c - 55))
    else None in
  match v with
  | Some d => if (d <? base)%Z then Some d else None
  | None => None
  end.

Fixpoint valueOfRadixDigits (base acc : Z) (ds : jsstring) : option Z :=
  match ds with
  | [] => Some acc
  | c :: rest =>
      match radixDigitValue base c with
      | Some d => valueOfRadixDigits base (acc * base + d)%Z rest
      | None => None
      end
  end.

(** [NonDecimalIntegerLiteral]: [0x], [0o] and [0b] literals (no sign). *)
Definition nonDecimalIntegerLiteral (s : jsstring) : option number :=
  match s with
  | z :: p :: d :: ds =>
      let base :=
        if ((p =? 120) || (p =? 88))%N then Some 16%Z
        else if ((p =? 111) || (p =? 79))%N then Some 8%Z
        else if ((p =? 98) || (p =? 66))%N then Some 2%Z
        else None in
      match base with
      | Some b =>
          if (z =? 48)%N then
            match valueOfRadixDigits b 0 (d :: ds) with
            | Some v => Some (numberOfRational false v 1)
            | None => None
            end
          else None
      | None => None
      end
  | _ => None
  end.

(** [Number(s)] on a string: StringToNumber. *)
Definition Number (s : jsstring) : number :=
  let t := trim s in
  match t with
  | [] => S754_zero false
  | c :: rest =>
      match nonDecimalIntegerLiteral t with
      | Some x => x
      | None =>
          if (c =? PLUS)%N then strUnsignedDecimalLiteral false rest
          else if (c =? MINUS)%N then strUnsignedDecimalLiteral true rest
          else strUnsignedDecimalLiteral false t
      end
  end.

(** *** Number::toString *)

Fixpoint uintDigits (u : Decimal.uint) : jsstring :=
  match u with
  | Decimal.Nil => []
  | Decimal.D0 u' => 48%N :: uintDigits u'
  | Decimal.D1 u' => 49%N :: uintDigits u'
  | Decimal.D2 u' => 50%N :: uintDigits u'
  | Decimal.D3 u' => 51%N :: uintDigits u'
  | Decimal.D4 u' => 52%N :: uintDigits u'
  | Decimal.D5 u' => 53%N :: uintDigits u'
  | Decimal.D6 u' => 54%N :: uintDigits u'
  | Decimal.D7 u' => 55%N :: uintDigits u'
  | Decimal.D8 u' => 56%N :: uintDigits u'
  | Decimal.D9 u' => 57%N :: uintDigits u'
  end.

(** The decimal digits of a non-negative integer, most significant first. *)
Definition decimalDigits (n : Z) : jsstring := uintDigits (N.to_uint (Z.to_N n)).

(** [p / q * 10^x] as a fraction of integers. *)
Definition scale10 (p q x : Z) : Z * Z :=
  if (0 <=? x)%Z then (p * 10 ^ x, q)%Z else (p, q * 10 ^ (- x))%Z.

(** The integer [n] with [10^(n-1) <= p/q < 10^n], searched upwards. *)
Fixpoint decimalExponentFrom (fuel : nat) (n : Z) (p q : Z) : Z :=
  match fuel with
  | O => n
  | S fuel' =>
      let '(a, b) := scale10 p q (- n) in
      if (a <? b)%Z then n else decimalExponentFrom fuel' (n + 1)%Z p q
  end.

Definition decimalExponent (p q : Z) : Z := decimalExponentFrom 640 (-323) p q.

Definition isFinite (x : number) (m : positive) (e : Z) : bool :=
  match x with
  | S754_finite _ m' e' => Pos.eqb m m' && Z.eqb e e'
  | _ => false
  end.

(** The [k]-digit decimals [s * 10^(n-k)] next to [p/q] (which is the double
    [m * 2^e]): the one below and the one above, each kept when it converts
    back to the same double; of two, the closer, the even one on a tie.
    With [force] the closer is returned without the conversion test. *)
Definition digitsCandidate (force : bool) (m : positive) (e p q n k : Z)
  : option Z :=
  let '(a, b) := scale10 p q (k - n) in
  let lo := (a / b)%Z in
  let hi := (lo + 1)%Z in
  let okLo := force || isFinite (numberOfDecimal false lo (n - k)) m e in
  let okHi := force || isFinite (numberOfDecimal false hi (n - k)) m e in
  match okLo, okHi with
  | true, true =>
      match (2 * (a mod b) ?= b)%Z with
      | Lt => Some lo
      | Gt => Some hi
      | Eq => Some (if Z.even lo then lo else hi)
      end
  | true, false => Some lo
  | false, true => Some hi
  | false, false => None
  end.

(** The least [k] (at most 17) with a [k]-digit decimal that identifies the
    double, and that decimal's [s]. *)
Fixpoint shortestDigitsFrom (fuel : nat) (m : positive) (e p q n k : Z)
  : Z * Z :=
  match fuel with
  | O =>
      match digitsCandidate true m e p q n k with
      | Some s => (s, k)
      | None => (0%Z, k)
      end
  | S fuel' =>
      match digitsCandidate false m e p q n k with
      | Some s => (s, k)
      | None => shortestDigitsFrom fuel' m e p q n (k + 1)%Z
      end
  end.

Definition zeros (n : Z) : jsstring := repeat 48%N (Z.to_nat n).

(** The text of [s * 10^(n-k)] where [digits] are the [k] digits of [s]:
    steps 6-10 of Number::toString for radix 10. *)
Definition formatDecimal (digits : jsstring) (n : Z) : jsstring :=
  let k := Z.of_nat (length digits) in
  if ((k <=? n) && (n <=? 21))%Z then digits ++ zeros (n - k)
  else if ((0 <? n) && (n <=? 21))%Z then
    firstn (Z.to_nat n) digits ++ [DOT] ++ skipn (Z.to_nat n) digits
  else if ((-6 <? n) && (n <=? 0))%Z then
    js "0." ++ zeros (- n) ++ digits
  else
    let x := (n - 1)%Z in
    let exponent :=
      [101%N] ++ [if (x <? 0)%Z then MINUS else PLUS] ++ decimalDigits (Z.abs x) in
    match digits with
    | [d] => [d] ++ exponent
    | _ => firstn 1 digits ++ [DOT] ++ skipn 1 digits ++ exponent
    end.

(** The text of the positive double [m * 2^e]. *)
Definition positiveToString (m : positive) (e : Z) : jsstring :=
  let '(p, q) := scaleBy (Zpos m) 1 (- e) in
  match numberOfRational false p q with
  | S754_finite _ mc ec =>
      let n := decimalExponent p q in
      let '(s, k) := shortestDigitsFrom 16 mc ec p q n 1 in
      (* a candidate rounded up to [10^k] is [10^(k-1) * 10^(n+1-k)] *)
      if (s =? 10 ^ k)%Z then formatDecimal (decimalDigits (10 ^ (k - 1))) (n + 1)
      else formatDecimal (decimalDigits s) n
  | S754_infinity _ => js "Infinity"
  | _ => js "0"
  end.

(** [Number::toString(x)] with radix 10, which is what a template literal
    applies to a Number. *)
Definition toString (x : number) : jsstring :=
  match x with
  | S754_nan => js "NaN"
  | S754_zero _ => js "0"
  | S754_infinity s => (if s then [MINUS] else []) ++ js "Infinity"
  | S754_finite s m e => (if s then [MINUS] else []) ++ positiveToString m e
  end.

(** *** Arithmetic on Numbers *)

(** [a + b] and [a / b]: IEEE-754 binary64, round to nearest, ties to even. *)
Definition add (a b : number) : number := SFadd 53 1024 a b.
Definition div (a b : number) : number := SFdiv 53 1024 a b.

(** A count as a Number (exact below [2^53]). *)
Definition numberOfNat (n : nat) : number := numberOfRational false (Z.of_nat n) 1.

(** [a - b] and [-a]. *)
Definition sub (a b : number) : number := SFsub 53 1024 a b.
Definition neg (a : number) : number := SFopp a.

(** *** Integers in template strings *)

Definition SLASH : code_unit := 47%N.
Definition ZERO : code_unit := 48%N.
Definition LETTER_W : code_unit := 87%N.

(** [String(n)] for an integral Number [n] of magnitude below [10^21]: the
    decimal digits, after a minus sign when [n] is negative. *)
Definition integerToString (n : Z) : jsstring :=
  if (n <? 0)%Z then MINUS :: decimalDigits (- n) else decimalDigits n.

(** [s.padStart(targetLength, fill)] for a fill of one code unit. *)
Definition padStart (targetLength : nat) (fill : code_unit) (s : jsstring)
  : jsstring :=
  repeat fill (targetLength - length s) ++ s.

(** [s.slice(-n)]: the last [n] code units, all of [s] when it is shorter. *)
Definition sliceFromEnd (n : nat) (s : jsstring) : jsstring :=
  skipn (length s - n) s.

End JS.

(* ================================================================== *)
(** ** apps/scraper/src/parser.ts *)
(* ================================================================== *)

Module Parser.
Import JS.

Record ScrapedOrder := {
  restaurantName : jsstring;
  totalPrice : number;
  orderedAtText : jsstring;
  sourceSignature : jsstring
}.

(** [[\d,]] *)
Definition isDigitOrComma (c : code_unit) : bool := isDigit c || (c =? COMMA)%N.

(** [(?:\.\d{1,2})?] at the head of [s]: a dot and one or two digits, greedily,
    or nothing. *)
Definition matchFraction (s : jsstring) : jsstring :=
  match s with
  | c :: d1 :: rest =>
      if (c =? DOT)%N && isDigit d1 then
        match rest with
        | d2 :: _ => if isDigit d2 then [c; d1; d2] else [c; d1]
        | [] => [c; d1]
        end
      else []
  | _ => []
  end.

(** [\s*([\d,]+(?:\.\d{1,2})?)] right after a dollar sign: the captured
    group.  Both stars are greedy; the classes [\s] and [[\d,]] are disjoint
    and the fraction is optional, so backtracking never finds a match where
    the greedy attempt fails. *)
Definition matchAfterDollar (s : jsstring) : option jsstring :=
  let afterSpace := dropWhile isWhiteSpace s in
  match takeWhile isDigitOrComma afterSpace with
  | [] => None
  | body => Some (body ++ matchFraction (dropWhile isDigitOrComma afterSpace))
  end.

(** [fullText.match(pricePattern)] with
    [pricePattern = /\$\s*([\d,]+(?:\.\d{1,2})?)/]: group 1 of the leftmost
    match, [None] for [null]. *)
Fixpoint matchPricePattern (fullText : jsstring) : option jsstring :=
  match fullText with
  | [] => None
  | c :: rest =>
      if (c =? DOLLAR)%N then
        match matchAfterDollar rest with
        | Some group1 => Some group1
        | None => matchPricePattern rest
        end
      else matchPricePattern rest
  end.

(** [text.replace(/,/g, '')] *)
Definition removeCommas (text : jsstring) : jsstring :=
  filter (fun c => negb (c =? COMMA)%N) text.

Definition parsePriceFromText (fullText : jsstring) : option number :=
  match matchPricePattern fullText with
  | None => None
  | Some group1 =>
      let totalPrice := Number (removeCommas group1) in
      if isNaN totalPrice then None else Some totalPrice
  end.

(** [value.replace(/\s+/g, ' ')]: every maximal run of whitespace becomes one
    space; [inRun] tells that the previous code unit was whitespace. *)
Fixpoint replaceWhitespaceRuns (inRun : bool) (value : jsstring) : jsstring :=
  match value with
  | [] => []
  | c :: rest =>
      if isWhiteSpace c then
        if inRun then replaceWhitespaceRuns true rest
        else SPACE :: replaceWhitespaceRuns true rest
      else c :: replaceWhitespaceRuns false rest
  end.

Definition normalizeText (value : jsstring) : jsstring :=
  trim (replaceWhitespaceRuns false value).

Record OrderedDateTime := {
  orderedDate : jsstring;
  orderedTime : jsstring
}.

Definition splitOrderedAtText (orderedAtText : jsstring) : OrderedDateTime :=
  let segments :=
    filter (fun segment => (0 <? length segment)%nat)
           (map (fun segment => trim segment) (split COMMA orderedAtText)) in
  if (3 <=? length segments)%nat then
    {| orderedDate := nth 0 segments [] ++ js ", " ++ nth 1 segments [];
       orderedTime := join (js ", ") (skipn 2 segments) |}
  else
    {| orderedDate := orderedAtText;
       orderedTime := [] |}.

Definition buildScrapedOrder
    (restaurantName : jsstring) (totalPrice : number) (orderedAtText : jsstring)
  : ScrapedOrder :=
  {| restaurantName := restaurantName;
     totalPrice := totalPrice;
     orderedAtText := orderedAtText;
     sourceSignature :=
       restaurantName ++ js "__" ++ orderedAtText ++ js "__" ++ toString totalPrice |}.

End Parser.

(* ================================================================== *)
(** ** apps/scraper/src/index.ts *)
(* ================================================================== *)

Module Scraper.
Import JS Parser.

(** What [debugLog] passes to [console.log] besides the message. *)
Inductive LogDetails :=
| SkippedRow (orderedAtText restaurantName rawPriceText : jsstring)
| Summary (rowCount parsedOrders : nat).

(** One [console.log] call. *)
Definition ConsoleLine := (jsstring * option LogDetails)%type.

(** [x ?? ''] *)
Definition orEmpty (x : option jsstring) : jsstring :=
  match x with Some text => text | None => [] end.

(** [a || b] on strings: the empty string is the only falsy one. *)
Definition orElse (a b : jsstring) : jsstring :=
  match a with [] => b | _ => a end.

(** A loop index or a count inside a template literal: an integer below
    [2^53] prints as its decimal digits. *)
Definition natToString (n : nat) : jsstring := decimalDigits (Z.of_nat n).

(** [const debugScraper = (process.env.DEBUG_SCRAPER ?? '1') !== '0'], as a
    function of the environment variable ([None] when it is not set). *)
Definition debugScraper (DEBUG_SCRAPER : option jsstring) : bool :=
  negb (jsstring_eqb (match DEBUG_SCRAPER with Some v => v | None => js "1" end)
                     (js "0")).

(** [debugLog]: the lines it writes to the console. *)
Definition debugLog (debugScraper : bool) (message : jsstring)
    (details : option LogDetails) : list ConsoleLine :=
  if negb debugScraper then []
  else
    match details with
    | Some d => [(js "[scraper:debug] " ++ message, Some d)]
    | None => [(js "[scraper:debug] " ++ message, None)]
    end.

(** *** The page *)

(** A [td] as the extraction reads it: its [textContent()] and the
    [textContent()] of its first [span > span]; [None] is [null]. *)
Record Cell := {
  cellText : option jsstring;
  spanText : option jsstring
}.

Definition Row := list Cell.
Definition Table := list Row.

(** [(await cells.nth(i).textContent())] *)
Definition textContentAt (cells : Row) (i : nat) : option jsstring :=
  match nth_error cells i with
  | Some cell => cellText cell
  | None => None
  end.

(** [(await cells.nth(i).locator('span > span').first().textContent())] *)
Definition spanTextContentAt (cells : Row) (i : nat) : option jsstring :=
  match nth_error cells i with
  | Some cell => spanText cell
  | None => None
  end.

(** *** expandOrdersTable *)

Record ExpandState := {
  iterations : nat;        (* loop bodies executed, each with one poll *)
  previousCount : nat;
  stablePasses : nat;
  expandConsole : list ConsoleLine
}.

(** The [for] loop.  [count i] is what the [i]-th
    [page.locator(rowSelector).count()] returns, the call before the loop being
    number 0 and the poll of iteration [i] number [i]; [remaining] is
    [240 + 1 - iteration], the number of values of [iteration] the loop
    condition [iteration <= 240] still lets through. *)
Fixpoint expandLoop (debug : bool) (count : nat -> nat) (remaining : nat)
    (iteration previousCount stablePasses : nat) (console : list ConsoleLine)
  : ExpandState :=
  match remaining with
  | O =>
      {| iterations := iteration - 1; previousCount := previousCount;
         stablePasses := stablePasses; expandConsole := console |}
  | S remaining' =>
      let nextCount := count iteration in
      let console' :=
        console ++
        debugLog debug
          (js "expand: iteration=" ++ natToString iteration ++
           js ", rows(before=" ++ natToString previousCount ++
           js ", after=" ++ natToString nextCount ++ js ")") None in
      if (previousCount <? nextCount)%nat then
        expandLoop debug count remaining' (S iteration) nextCount 0 console'
      else
        let stablePasses' := (stablePasses + 1)%nat in
        if (3 <=? stablePasses')%nat then
          {| iterations := iteration; previousCount := previousCount;
             stablePasses := stablePasses'; expandConsole := console' |}
        else
          expandLoop debug count remaining' (S iteration) previousCount
                     stablePasses' console'
  end.

(** The function for a loop bound [limit] ([iteration <= limit]). *)
Definition expandOrdersTableUpTo (limit : nat) (debug : bool)
    (count : nat -> nat) : ExpandState :=
  let final := expandLoop debug count limit 1 (count 0%nat) 0 [] in
  {| iterations := iterations final;
     previousCount := previousCount final;
     stablePasses := stablePasses final;
     expandConsole :=
       expandConsole final ++
       debugLog debug (js "expand: waiting 10s settle before extraction") None |}.

Definition expandOrdersTable : bool -> (nat -> nat) -> ExpandState :=
  expandOrdersTableUpTo 240.

(** *** extractOrdersFromTable *)

(** The [for] loop over the rows from [index] on. *)
Fixpoint extractLoop (debug : bool) (index : nat) (rows : list Row)
    (orders : list ScrapedOrder) (console : list ConsoleLine)
  : list ScrapedOrder * list ConsoleLine :=
  match rows with
  | [] => (orders, console)
  | cells :: rest =>
      let cellCount := length cells in
      if (cellCount <? 5)%nat then
        extractLoop debug (S index) rest orders console
      else
        let orderedAtText := normalizeText (orEmpty (textContentAt cells 0)) in
        let restaurantName :=
          orElse (normalizeText (orEmpty (spanTextContentAt cells 1)))
                 (normalizeText (orEmpty (textContentAt cells 1))) in
        let rawPriceText := normalizeText (orEmpty (textContentAt cells 4)) in
        let totalPrice := parsePriceFromText rawPriceText in
        match orderedAtText, restaurantName, totalPrice with
        | _ :: _, _ :: _, Some price =>
            extractLoop debug (S index) rest
              (orders ++ [buildScrapedOrder restaurantName price orderedAtText])
              console
        | _, _, _ =>
            extractLoop debug (S index) rest orders
              (console ++
               debugLog debug
                 (js "extract: skipped row " ++ natToString (index + 1))
                 (Some (SkippedRow orderedAtText restaurantName rawPriceText)))
        end
  end.

Definition extractOrdersFromTable (debug : bool) (table : Table)
  : list ScrapedOrder * list ConsoleLine :=
  let rowCount := length table in
  let '(orders, console) := extractLoop debug 0 table [] [] in
  (orders,
   console ++
   debugLog debug (js "extract: summary") (Some (Summary rowCount (length orders)))).

(** *** run, up to the request it sends *)

(** The page as [run] sees it: the successive row counts while the table
    expands and the table once it has settled. *)
Record Page := {
  rowCounts : nat -> nat;
  settledTable : Table
}.

Record RunResult := {
  posted : option (list ScrapedOrder);  (* the [orders] of the POST body *)
  runConsole : list ConsoleLine         (* the debug lines *)
}.

Definition run (DEBUG_SCRAPER : option jsstring) (page : Page) : RunResult :=
  let debug := debugScraper DEBUG_SCRAPER in
  let expanded := expandOrdersTable debug (rowCounts page) in
  let '(orders, console) := extractOrdersFromTable debug (settledTable page) in
  {| posted := match orders with [] => None | _ => Some orders end;
     runConsole := expandConsole expanded ++ console |}.

End Scraper.

(* ================================================================== *)
(** ** The API's database module *)
(* ================================================================== *)

Module Db.
Import JS.

(** [CreateOrderPayload] of the API's types. *)
Record CreateOrderPayload := {
  restaurantName : jsstring;
  totalPrice : number;
  orderedAtText : jsstring;
  sourceSignature : jsstring
}.

(** A row of the [orders] table. *)
Record OrderRow := {
  id : nat;
  restaurant_name : jsstring;
  item_count : nat;
  total_price : number;
  ordered_date : jsstring;
  ordered_time : jsstring;
  ordered_at_text : jsstring;
  source_signature : jsstring;
  created_at : jsstring
}.

(** The [orders] table and the high-water mark of its AUTOINCREMENT key. *)
Record Database := {
  orders : list OrderRow;
  lastId : nat
}.

Record OrderedDateTime := {
  orderedDate : jsstring;
  orderedTime : jsstring
}.

Definition splitOrderedAtText (orderedAtText : jsstring) : OrderedDateTime :=
  let segments :=
    filter (fun segment => (0 <? length segment)%nat)
           (map (fun segment => trim segment) (split COMMA orderedAtText)) in
  if (3 <=? length segments)%nat then
    {| orderedDate := nth 0 segments [] ++ js ", " ++ nth 1 segments [];
       orderedTime := join (js ", ") (skipn 2 segments) |}
  else
    {| orderedDate := orderedAtText;
       orderedTime := [] |}.

(** An [Error] thrown by the driver, by its message. *)
Definition SqlError := jsstring.

Definition uniqueViolation : SqlError :=
  js "SQLITE_CONSTRAINT: UNIQUE constraint failed: orders.source_signature".

(** [error instanceof Error && /UNIQUE constraint failed/.test(error.message)] *)
Definition isUniqueConstraintError (error : SqlError) : bool :=
  includes (js "UNIQUE constraint failed") error.

Definition hasSignature (db : Database) (signature : jsstring) : bool :=
  existsb (fun row => jsstring_eqb (source_signature row) signature) (orders db).

(** [stmt.run(...)] of the prepared INSERT.  The seven parameters are
    strings, the constant 1 and a number decoded from the JSON body of the
    request; all are stored as non-NULL values, so the one constraint of the
    table left to fail is [source_signature TEXT NOT NULL UNIQUE].  [now] is
    CURRENT_TIMESTAMP. *)
Definition stmtRun (now : jsstring) (db : Database)
    (restaurant_name : jsstring) (item_count : nat) (total_price : number)
    (ordered_date ordered_time ordered_at_text source_signature : jsstring)
  : Database + SqlError :=
  if hasSignature db source_signature then inr uniqueViolation
  else
    inl {| orders :=
             orders db ++
             [{| id := S (lastId db);
                 restaurant_name := restaurant_name;
                 item_count := item_count;
                 total_price := total_price;
                 ordered_date := ordered_date;
                 ordered_time := ordered_time;
                 ordered_at_text := ordered_at_text;
                 source_signature := source_signature;
                 created_at := now |}];
           lastId := S (lastId db) |}.

Record InsertSummary := {
  inserted : nat;
  skipped : nat
}.

(** The [for ... of] loop of [insertOrders] with its inner [try]/[catch]:
    [inr] is the rethrown error. *)
Fixpoint insertLoop (now : jsstring) (db : Database)
    (batch : list CreateOrderPayload) (inserted skipped : nat)
  : (Database * InsertSummary) + SqlError :=
  match batch with
  | [] => inl (db, {| inserted := inserted; skipped := skipped |})
  | order :: rest =>
      let orderedDateTime := splitOrderedAtText (orderedAtText order) in
      match stmtRun now db (restaurantName order) 1 (totalPrice order)
                    (orderedDate orderedDateTime) (orderedTime orderedDateTime)
                    (orderedAtText order) (sourceSignature order) with
      | inl db' => insertLoop now db' rest (inserted + 1) skipped
      | inr error =>
          if isUniqueConstraintError error
          then insertLoop now db rest inserted (skipped + 1)
          else inr error
      end
  end.

(** [insertOrders]: the database afterwards and what the promise settles to
    ([inr] when it rejects). *)
Definition insertOrders (now : jsstring) (db : Database)
    (batch : list CreateOrderPayload)
  : Database * (InsertSummary + SqlError) :=
  match batch with
  | [] => (db, inl {| inserted := 0; skipped := 0 |})
  | _ =>
      (* BEGIN TRANSACTION *)
      match insertLoop now db batch 0 0 with
      | inl (db', summary) => (* COMMIT *) (db', inl summary)
      | inr error => (* ROLLBACK *) (db, inr error)
      end
  end.

(** [OrderRecord] of the API's types, as [listOrders] returns it. *)
Record OrderRecord := {
  record_id : nat;
  record_restaurantName : jsstring;
  record_totalPrice : number;
  record_orderedAtText : jsstring;
  record_sourceSignature : jsstring;
  record_createdAt : jsstring
}.

(** [ORDER BY id DESC]: the rows sorted by decreasing [id]. *)
Fixpoint insertByIdDesc (row : OrderRow) (sorted : list OrderRow) : list OrderRow :=
  match sorted with
  | [] => [row]
  | first :: rest =>
      if (id first <? id row)%nat then row :: sorted
      else first :: insertByIdDesc row rest
  end.

Definition orderByIdDesc (rows : list OrderRow) : list OrderRow :=
  fold_right insertByIdDesc [] rows.

(** [listOrders]: [SELECT * FROM orders ORDER BY id DESC], each row mapped to
    an [OrderRecord]. *)
Definition listOrders (db : Database) : list OrderRecord :=
  map (fun row =>
         {| record_id := id row;
            record_restaurantName := restaurant_name row;
            record_totalPrice := total_price row;
            record_orderedAtText := ordered_at_text row;
            record_sourceSignature := source_signature row;
            record_createdAt := created_at row |})
      (orderByIdDesc (orders db)).

End Db.

(* ================================================================== *)
(** ** The API server: POST /orders/bulk *)
(* ================================================================== *)

Module Api.
Import JS.

(** A value of a parsed request body. *)
#[warnings="-register-all"]
Inductive JsValue :=
| JsUndefined
| JsNull
| JsBoolean (b : bool)
| JsNumber (x : number)
| JsString (s : jsstring)
| JsArray (items : list JsValue)
| JsObject (properties : list (jsstring * JsValue)).

Fixpoint lookupProperty (name : jsstring) (properties : list (jsstring * JsValue))
  : JsValue :=
  match properties with
  | [] => JsUndefined
  | (key, value) :: rest =>
      if jsstring_eqb key name then value else lookupProperty name rest
  end.

(** [value.name] for one of the payload's property names: [None] is the
    TypeError of reading a property of [undefined] or [null]; a primitive or
    an array has no such property. *)
Definition propertyOf (value : JsValue) (name : jsstring) : option JsValue :=
  match value with
  | JsUndefined | JsNull => None
  | JsObject properties => Some (lookupProperty name properties)
  | _ => Some JsUndefined
  end.

Inductive ResponseBody :=
| ErrorJson (error : jsstring)
| SummaryJson (summary : Db.InsertSummary).

Record Response := {
  status : nat;
  json : ResponseBody
}.

(** What the handler does with a request: it answers, or it throws. *)
Inductive Outcome :=
| Responded (response : Response)
| Threw.

(** The shape check on the elements of [payload.orders], in order. *)
Inductive Validation :=
| Valid (batch : list Db.CreateOrderPayload)
| Invalid
| TypeError.

(** One element: the four [typeof] tests, which read [order.restaurantName]
    first. *)
Definition checkOrder (order : JsValue) : Validation :=
  match propertyOf order (js "restaurantName"),
        propertyOf order (js "totalPrice"),
        propertyOf order (js "orderedAtText"),
        propertyOf order (js "sourceSignature") with
  | Some (JsString name), Some (JsNumber price),
    Some (JsString text), Some (JsString signature) =>
      Valid [ {| Db.restaurantName := name;
                 Db.totalPrice := price;
                 Db.orderedAtText := text;
                 Db.sourceSignature := signature |} ]
  | None, _, _, _ => TypeError
  | _, _, _, _ => Invalid
  end.

(** The [for ... of] loop over [payload.orders]: the first element that
    fails decides. *)
Fixpoint checkOrders (orders : list JsValue) : Validation :=
  match orders with
  | [] => Valid []
  | order :: rest =>
      match checkOrder order with
      | Valid first =>
          match checkOrders rest with
          | Valid batch => Valid (first ++ batch)
          | failure => failure
          end
      | failure => failure
      end
  end.

(** The handler of [POST /orders/bulk] on the parsed body [req.body]. *)
Definition postOrdersBulk (now : jsstring) (db : Db.Database) (body : JsValue)
  : Db.Database * Outcome :=
  match propertyOf body (js "orders") with
  | None => (db, Threw)
  | Some (JsArray orders) =>
      match checkOrders orders with
      | TypeError => (db, Threw)
      | Invalid =>
          (db, Responded {| status := 400;
                            json := ErrorJson (js "Invalid order object in payload.") |})
      | Valid batch =>
          match Db.insertOrders now db batch with
          | (db', inl result) =>
              (db', Responded {| status := 201; json := SummaryJson result |})
          | (db', inr _) => (db', Threw)
          end
      end
  | Some _ =>
      (db, Responded {| status := 400;
                        json := ErrorJson (js "Body must be { orders: [...] }") |})
  end.

(** The handler of [GET /orders]. *)
Definition getOrders (db : Db.Database) : list Db.OrderRecord := Db.listOrders db.

End Api.

(* ================================================================== *)
(** ** The web app: aggregation of orders into period buckets *)
(* ================================================================== *)

Module Web.
Import JS.

Section Aggregation.

(** The app's [Date] values; the aggregation only passes them to [getKey]
    and [getLabel]. *)
Variable Date : Type.

Record ParsedOrder := {
  date : Date;
  totalPrice : number
}.

Record Aggregate := {
  totalSpend : number;
  totalOrders : nat
}.

(** A [Map<string, Aggregate>]: its entries in insertion order, one per key. *)
Definition AggregateMap := list (jsstring * Aggregate).

(** [map.get(key)] *)
Fixpoint mapGet (key : jsstring) (map : AggregateMap) : option Aggregate :=
  match map with
  | [] => None
  | (k, aggregate) :: rest =>
      if jsstring_eqb k key then Some aggregate else mapGet key rest
  end.

(** The entry of [key] mutated in place. *)
Fixpoint mapUpdate (key : jsstring) (change : Aggregate -> Aggregate)
    (map : AggregateMap) : AggregateMap :=
  match map with
  | [] => []
  | (k, aggregate) :: rest =>
      if jsstring_eqb k key then (k, change aggregate) :: rest
      else (k, aggregate) :: mapUpdate key change rest
  end.

(** One turn of the [for ... of] loop of [buildAggregateMap]. *)
Definition aggregateItem (getKey : Date -> jsstring) (map : AggregateMap)
    (item : ParsedOrder) : AggregateMap :=
  let key := getKey (date item) in
  match mapGet key map with
  | Some existing =>
      mapUpdate key
        (fun existing =>
           {| totalSpend := add (totalSpend existing) (totalPrice item);
              totalOrders := totalOrders existing + 1 |})
        map
  | None =>
      map ++ [(key, {| totalSpend := totalPrice item; totalOrders := 1 |})]
  end.

Definition buildAggregateMap (items : list ParsedOrder)
    (getKey : Date -> jsstring) : AggregateMap :=
  fold_left (aggregateItem getKey) items [].

Record PeriodBucket := {
  key : jsstring;
  label : jsstring;
  bucketTotalSpend : number;
  bucketTotalOrders : nat;
  avgSpendPerOrder : number
}.

Definition materializeBuckets (periodStarts : list Date)
    (aggregateMap : AggregateMap)
    (getKey : Date -> jsstring) (getLabel : Date -> jsstring)
  : list PeriodBucket :=
  map (fun date =>
         let key := getKey date in
         let aggregate := mapGet key aggregateMap in
         let totalSpend :=
           match aggregate with Some a => totalSpend a | None => S754_zero false end in
         let totalOrders :=
           match aggregate with Some a => totalOrders a | None => 0%nat end in
         {| key := key;
            label := getLabel date;
            bucketTotalSpend := totalSpend;
            bucketTotalOrders := totalOrders;
            avgSpendPerOrder :=
              if (0 <? totalOrders)%nat then div totalSpend (numberOfNat totalOrders)
              else S754_zero false |})
      periodStarts.

End Aggregation.

Section Keys.

(** The getters of [Date] the key and label functions read.  The dates are
    valid ([parseOrderedDate] drops the others), so the getters return
    integers: a year, a month from 0 and a day of the month. *)
Variable Date : Type.
Variable getFullYear : Date -> Z.
Variable getMonth : Date -> nat.
Variable getDate : Date -> nat.

Definition monthKey (date : Date) : jsstring :=
  integerToString (getFullYear date) ++ [MINUS]
  ++ padStart 2 ZERO (integerToString (Z.of_nat (getMonth date + 1))).

Definition yearKey (date : Date) : jsstring :=
  integerToString (getFullYear date).

Record IsoWeekInfo := { year : Z; week : nat }.

(** [isoWeekInfo] is date arithmetic of the runtime; [weekKey] only formats
    its result. *)
Variable isoWeekInfo : Date -> IsoWeekInfo.

Definition weekKey (date : Date) : jsstring :=
  let info := isoWeekInfo date in
  integerToString (year info) ++ [MINUS; LETTER_W]
  ++ padStart 2 ZERO (integerToString (Z.of_nat (week info))).

Definition weekStartLabel (date : Date) (includeYear : bool) : jsstring :=
  let month := (getMonth date + 1)%nat in
  let day := getDate date in
  if negb includeYear then
    integerToString (Z.of_nat month) ++ [SLASH] ++ integerToString (Z.of_nat day)
  else
    let shortYear := sliceFromEnd 2 (integerToString (getFullYear date)) in
    integerToString (Z.of_nat month) ++ [SLASH]
    ++ integerToString (Z.of_nat day) ++ [SLASH] ++ shortYear.

(** The [map] callback of [weekStartLabels] reads and writes the variable
    [previousYear] of the enclosing call; it is threaded through here. *)
Fixpoint weekStartLabelsFrom (previousYear : option Z) (weekStarts : list Date)
  : list jsstring :=
  match weekStarts with
  | [] => []
  | weekStart :: rest =>
      let currentYear := getFullYear weekStart in
      let includeYear :=
        match previousYear with
        | None => true
        | Some previous => negb (currentYear =? previous)%Z
        end in
      weekStartLabel weekStart includeYear
      :: weekStartLabelsFrom (Some currentYear) rest
  end.

Definition weekStartLabels (weekStarts : list Date) : list jsstring :=
  weekStartLabelsFrom None weekStarts.

End Keys.

(** [key.split('-')[0]]; [split] never returns an empty array. *)
Definition yearFromBucketKey (key : jsstring) : jsstring :=
  match split MINUS key with
  | yearPart :: _ => yearPart
  | [] => []
  end.

(** [/-W(\d{2})$/] tried at the head of [s]: the whole of [s] is [-W] and two
    digits; the result is the capture. *)
Definition matchWeekSuffixAt (s : jsstring) : option jsstring :=
  match s with
  | [c1; c2; c3; c4] =>
      if (c1 =? MINUS)%N && (c2 =? LETTER_W)%N && isDigit c3 && isDigit c4
      then Some [c3; c4] else None
  | _ => None
  end.

(** [key.match(/-W(\d{2})$/)]: the first position at which the pattern
    matches. *)
Fixpoint matchWeekSuffix (s : jsstring) : option jsstring :=
  match matchWeekSuffixAt s with
  | Some capture => Some capture
  | None =>
      match s with
      | [] => None
      | _ :: rest => matchWeekSuffix rest
      end
  end.

Definition weekIndexFromBucketKey (key : jsstring) : number :=
  match matchWeekSuffix key with
  | None => neg (numberOfNat 1)
  | Some capture => sub (Number capture) (numberOfNat 1)
  end.

Definition monthIndexFromBucketKey (key : jsstring) : number :=
  let parts := split MINUS key in
  if (length parts <? 2)%nat then neg (numberOfNat 1)
  else sub (Number (nth 1 parts [])) (numberOfNat 1).

End Web.

(* ================================================================== *)
(** ** Vocabulary of the statements *)
(* ================================================================== *)

Section Vocabulary.
Import JS Parser.

(** A text is clean at its start when its first code unit, if any, is not in
    the class [p]. *)
Definition startsClean (p : code_unit -> bool) (s : jsstring) : Prop :=
  match s with [] => True | c :: _ => p c = false end.

(** Whitespace occurs only as single spaces; [afterSpace] tells that the code
    unit before the text is whitespace. *)
Fixpoint collapsed (afterSpace : bool) (s : jsstring) : Prop :=
  match s with
  | [] => True
  | c :: rest =>
      if isWhiteSpace c
      then c = SPACE /\ afterSpace = false /\ collapsed true rest
      else collapsed false rest
  end.

(** The optional decimals of the price pattern: nothing, or a dot and one or
    two digits. *)
Definition isFractionPart (frac : jsstring) : Prop :=
  frac = [] \/
  exists ds, frac = DOT :: ds /\ (1 <= length ds <= 2)%nat
             /\ forallb isDigit ds = true.

(** The price pattern occurs in a text: a dollar sign, any whitespace, one or
    more digits and commas, and the optional decimals. *)
Definition pricePatternOccurs (text : jsstring) : Prop :=
  exists pre ws body frac post,
    text = pre ++ [DOLLAR] ++ ws ++ body ++ frac ++ post
    /\ forallb isWhiteSpace ws = true
    /\ body <> [] /\ forallb isDigitOrComma body = true
    /\ isFractionPart frac.

(** A text without the underscore of the signature delimiter. *)
Definition noUnderscore (s : jsstring) : Prop :=
  forallb (fun c => negb (c =? UNDERSCORE)%N) s = true.

(** The code units of a stripped price text. *)
Definition isDigitOrDot (c : code_unit) : bool := isDigit c || (c =? DOT)%N.

(** The double [x] is the one nearest to the non-negative rational [p / q]. *)
Definition nearestDouble (x : number) (p q : Z) : Prop :=
  match x with
  | S754_zero false => p = 0%Z
  | S754_finite false m e =>
      (2 ^ 52 <= Zpos m < 2 ^ 53)%Z /\ (e < 0)%Z
      /\ (2 * Z.abs (Zpos m * q - p * 2 ^ (- e)) <= q)%Z
  | _ => False
  end.

(** *** A table row as the extraction reads it *)

(** The normalized text of column [i]. *)
Definition columnText (row : Scraper.Row) (i : nat) : jsstring :=
  normalizeText (Scraper.orEmpty (Scraper.textContentAt row i)).

Definition rowTimestamp (row : Scraper.Row) : jsstring := columnText row 0.

(** The normalized text of the nested span of column 1, or the normalized
    full text of column 1 when the span text is empty. *)
Definition rowRestaurantName (row : Scraper.Row) : jsstring :=
  let spanName := normalizeText (Scraper.orEmpty (Scraper.spanTextContentAt row 1)) in
  if isEmpty spanName then columnText row 1 else spanName.

Definition rowPrice (row : Scraper.Row) : option number :=
  parsePriceFromText (columnText row 4).


(** The order of a row that passes validation. *)
Definition rowOrder (row : Scraper.Row) : option ScrapedOrder :=
  match rowPrice row with
  | Some price =>
      if (5 <=? length row)%nat && negb (isEmpty (rowTimestamp row))
         && negb (isEmpty (rowRestaurantName row))
      then Some (buildScrapedOrder (rowRestaurantName row) price (rowTimestamp row))
      else None
  | None => None
  end.

Definition rowOrders (row : Scraper.Row) : list ScrapedOrder :=
  match rowOrder row with Some order => [order] | None => [] end.

(** *** A row source for the expansion loop *)

(** The row count grows at each of the polls 1..K and never exceeds its
    value at poll K afterwards. *)
Definition stopsGrowingAfter (count : nat -> nat) (K : nat) : Prop :=
  (forall i, (i < K)%nat -> (count i < count (S i))%nat)
  /\ (forall i, (K < i)%nat -> (count i <= count K)%nat).

(** *** The stored signatures *)

Definition storedSignatures (db : Db.Database) : list jsstring :=
  map Db.source_signature (Db.orders db).

(** The row [stmt.run] stores for an order. *)
Definition rowOf (now : jsstring) (newId : nat) (order : Db.CreateOrderPayload)
  : Db.OrderRow :=
  {| Db.id := newId;
     Db.restaurant_name := Db.restaurantName order;
     Db.item_count := 1;
     Db.total_price := Db.totalPrice order;
     Db.ordered_date :=
       Db.orderedDate (Db.splitOrderedAtText (Db.orderedAtText order));
     Db.ordered_time :=
       Db.orderedTime (Db.splitOrderedAtText (Db.orderedAtText order));
     Db.ordered_at_text := Db.orderedAtText order;
     Db.source_signature := Db.sourceSignature order;
     Db.created_at := now |}.

(** *** The non-empty trimmed comma-segments of a text *)

Definition trimmedSegments (text : jsstring) : list jsstring :=
  filter (fun segment => negb (isEmpty segment)) (map trim (split COMMA text)).

(** *** Sample data *)

(** The end-to-end scenario: a valid row and a row with two cells. *)
Definition exampleRow : Scraper.Row :=
  [ {| Scraper.cellText := Some (JS.js "Feb 22, 2026, 10:09:13 AM");
       Scraper.spanText := None |};
    {| Scraper.cellText := Some (JS.js "  Example ");
       Scraper.spanText := Some (JS.js "Example") |};
    {| Scraper.cellText := Some (JS.js "2"); Scraper.spanText := None |};
    {| Scraper.cellText := Some (JS.js "Delivered"); Scraper.spanText := None |};
    {| Scraper.cellText := Some (JS.js "CA$24.99"); Scraper.spanText := None |} ].

Definition unpricedRow : Scraper.Row :=
  [ {| Scraper.cellText := Some (JS.js "Feb 21, 2026, 7:45:00 PM");
       Scraper.spanText := None |};
    {| Scraper.cellText := Some (JS.js "Example");
       Scraper.spanText := Some (JS.js "   ") |};
    {| Scraper.cellText := Some (JS.js "1"); Scraper.spanText := None |};
    {| Scraper.cellText := Some (JS.js "Cancelled"); Scraper.spanText := None |};
    {| Scraper.cellText := Some (JS.js "n/a"); Scraper.spanText := None |} ].

Definition shortRow : Scraper.Row :=
  [ {| Scraper.cellText := Some (JS.js "bad row"); Scraper.spanText := None |};
    {| Scraper.cellText := Some (JS.js "with 2 cells"); Scraper.spanText := None |} ].

Definition exampleBatch : list Db.CreateOrderPayload :=
  [ {| Db.restaurantName := JS.js "Example";
       Db.totalPrice := S754_finite false 7034059667999293 (-48);
       Db.orderedAtText := JS.js "Feb 22, 2026, 10:09:13 AM";
       Db.sourceSignature := JS.js "Example__Feb 22, 2026, 10:09:13 AM__24.99" |};
    {| Db.restaurantName := JS.js "Sample";
       Db.totalPrice := S754_zero false;
       Db.orderedAtText := JS.js "Feb 23, 2026, 9:00:00 PM";
       Db.sourceSignature := JS.js "Sample__Feb 23, 2026, 9:00:00 PM__0" |} ].

Definition emptyDatabase : Db.Database := {| Db.orders := []; Db.lastId := 0 |}.

(** *** The orders table *)

(** What AUTOINCREMENT and the UNIQUE constraint maintain: ids grow along the
    table and stay within the high-water mark, and no signature is stored
    twice. *)
Definition wellFormed (db : Db.Database) : Prop :=
  StronglySorted lt (map Db.id (Db.orders db))
  /\ Forall (fun row => (Db.id row <= Db.lastId db)%nat) (Db.orders db)
  /\ NoDup (storedSignatures db).

(** The rows [stmt.run] stores for a list of orders inserted one after the
    other, the last id handed out before being [lastId]. *)
Fixpoint rowsOf (now : jsstring) (lastId : nat)
    (inserted : list Db.CreateOrderPayload) : list Db.OrderRow :=
  match inserted with
  | [] => []
  | order :: rest => rowOf now (S lastId) order :: rowsOf now (S lastId) rest
  end.

(** *** Texts and prices *)

Definition nonWhiteSpace (c : code_unit) : bool := negb (isWhiteSpace c).

(** Zero, a positive double or +Infinity: neither NaN nor negative nor -0. *)
Definition isNonNegative (x : number) : bool :=
  match x with
  | S754_zero false | S754_infinity false | S754_finite false _ _ => true
  | _ => false
  end.

(** A segment of a canonical timestamp text: not empty, free of commas and
    already trimmed. *)
Definition isCanonicalSegment (segment : jsstring) : Prop :=
  segment <> [] /\ ~ In COMMA segment /\ trim segment = segment.


(** *** Aggregation *)

(** The items that fall under a key, in input order. *)
Definition itemsWithKey (Date : Type) (getKey : Date -> jsstring)
    (key : jsstring) (items : list (Web.ParsedOrder Date))
  : list (Web.ParsedOrder Date) :=
  filter (fun item => jsstring_eqb (getKey (Web.date item)) key) items.

(** The aggregate of a non-empty run of items: their number, and their
    prices added up from the first on. *)
Definition aggregateOf (Date : Type) (items : list (Web.ParsedOrder Date))
  : option Web.Aggregate :=
  match items with
  | [] => None
  | first :: others =>
      Some {| Web.totalSpend :=
                fold_left add (map (@Web.totalPrice Date) others)
                          (Web.totalPrice first);
              Web.totalOrders := length items |}
  end.

(** *** Keys and labels *)

(** A calendar date: year, month from 0, day of the month. *)
Record CalendarDate := {
  calendarYear : Z;
  calendarMonth : nat;
  calendarDay : nat
}.

(** The label at [index] shows the year when it is the first one, or when the
    year differs from that of the week start before it. *)
Definition showsYear (Date : Type) (getFullYear : Date -> Z)
    (weekStarts : list Date) (index : nat) (weekStart : Date) : bool :=
  match index with
  | O => true
  | S before =>
      match nth_error weekStarts before with
      | Some previous => negb (getFullYear weekStart =? getFullYear previous)%Z
      | None => true
      end
  end.

(** *** The bulk endpoint *)

(** A value that passes the shape check, and the payload it carries. *)
Definition hasOrderShape (value : Api.JsValue) (payload : Db.CreateOrderPayload)
  : Prop :=
  Api.propertyOf value (js "restaurantName")
    = Some (Api.JsString (Db.restaurantName payload))
  /\ Api.propertyOf value (js "totalPrice")
     = Some (Api.JsNumber (Db.totalPrice payload))
  /\ Api.propertyOf value (js "orderedAtText")
     = Some (Api.JsString (Db.orderedAtText payload))
  /\ Api.propertyOf value (js "sourceSignature")
     = Some (Api.JsString (Db.sourceSignature payload)).

Definition isNullish (value : Api.JsValue) : Prop :=
  value = Api.JsUndefined \/ value = Api.JsNull.

Definition sampleOrderValue : Api.JsValue :=
  Api.JsObject
    [ (js "restaurantName", Api.JsString (js "Example"));
      (js "totalPrice", Api.JsNumber (S754_finite false 7034059667999293 (-48)));
      (js "orderedAtText", Api.JsString (js "Feb 22, 2026, 10:09:13 AM"));
      (js "sourceSignature",
       Api.JsString (js "Example__Feb 22, 2026, 10:09:13 AM__24.99")) ].

Definition samplePayload : Db.CreateOrderPayload :=
  {| Db.restaurantName := js "Example";
     Db.totalPrice := S754_finite false 7034059667999293 (-48);
     Db.orderedAtText := js "Feb 22, 2026, 10:09:13 AM";
     Db.sourceSignature := js "Example__Feb 22, 2026, 10:09:13 AM__24.99" |}.

(** An element whose price is a string. *)
Definition malformedOrderValue : Api.JsValue :=
  Api.JsObject
    [ (js "restaurantName", Api.JsString (js "Example"));
      (js "totalPrice", Api.JsString (js "24.99"));
      (js "orderedAtText", Api.JsString (js "Feb 22, 2026, 10:09:13 AM"));
      (js "sourceSignature",
       Api.JsString (js "Example__Feb 22, 2026, 10:09:13 AM__24.99")) ].


Definition recordOf (row : Db.OrderRow) : Db.OrderRecord :=
  {| Db.record_id := Db.id row;
     Db.record_restaurantName := Db.restaurant_name row;
     Db.record_totalPrice := Db.total_price row;
     Db.record_orderedAtText := Db.ordered_at_text row;
     Db.record_sourceSignature := Db.source_signature row;
     Db.record_createdAt := Db.created_at row |}.

End Vocabulary.

(** Facts about code-unit classes are comparisons of numbers. *)
Ltac code_unit_cases :=
  unfold isDigitOrDot, Parser.isDigitOrComma, JS.isDigit, JS.isWhiteSpace,
         JS.isExponentIndicator, JS.COMMA, JS.DOT, JS.PLUS, JS.MINUS,
         JS.DOLLAR, JS.SPACE, JS.UNDERSCORE in *;
  rewrite ?orb_true_iff, ?andb_true_iff, ?orb_false_iff, ?andb_false_iff,
          ?negb_true_iff, ?negb_false_iff,
          ?N.eqb_eq, ?N.eqb_neq, ?N.leb_le, ?N.leb_gt in *;
  lia.

(* ================================================================== *)
(** ** Facts about the runtime model *)
(* ================================================================== *)

Section Scanning.
Import JS.
Variable p : code_unit -> bool.

Lemma takeWhile_dropWhile (s : jsstring) :
  takeWhile p s ++ dropWhile p s = s.
Proof.
  induction s as [|c rest IH]; simpl; [reflexivity|].
  destruct (p c); simpl; [now rewrite IH | reflexivity].
Qed.

Lemma takeWhile_all (s : jsstring) : forallb p (takeWhile p s) = true.
Proof.
  induction s as [|c rest IH]; simpl; [reflexivity|].
  destruct (p c) eqn:Hc; simpl; [now rewrite Hc | reflexivity].
Qed.

Lemma dropWhile_idempotent (s : jsstring) :
  dropWhile p (dropWhile p s) = dropWhile p s.
Proof.
  induction s as [|c rest IH]; simpl; [reflexivity|].
  destruct (p c) eqn:Hc; [exact IH | simpl; now rewrite Hc].
Qed.

Lemma dropWhile_all_app (ws s : jsstring) :
  forallb p ws = true -> dropWhile p (ws ++ s) = dropWhile p s.
Proof.
  induction ws as [|c rest IH]; simpl; [reflexivity|].
  intros H. apply andb_true_iff in H as [Hc Hrest].
  rewrite Hc. now apply IH.
Qed.

Lemma takeWhile_all_app (ws s : jsstring) :
  forallb p ws = true -> takeWhile p (ws ++ s) = ws ++ takeWhile p s.
Proof.
  induction ws as [|c rest IH]; simpl; [reflexivity|].
  intros H. apply andb_true_iff in H as [Hc Hrest].
  rewrite Hc. now rewrite IH.
Qed.

Lemma dropWhile_snoc (s : jsstring) (c : code_unit) :
  p c = false -> dropWhile p (s ++ [c]) = dropWhile p s ++ [c].
Proof.
  intros Hc. induction s as [|d rest IH]; simpl.
  - now rewrite Hc.
  - destruct (p d); [exact IH | reflexivity].
Qed.

Lemma dropWhile_startsClean (s : jsstring) : startsClean p (dropWhile p s).
Proof.
  induction s as [|c rest IH]; simpl; [exact I|].
  destruct (p c) eqn:Hc; [exact IH | exact Hc].
Qed.

Lemma startsClean_dropWhile (s : jsstring) :
  startsClean p s -> dropWhile p s = s.
Proof.
  destruct s as [|c rest]; simpl; [reflexivity|].
  now intros ->.
Qed.

End Scanning.

Section Trim.
Import JS.

Lemma trimEnd_prefix (s : jsstring) :
  exists tail, s = trimEnd s ++ tail /\ forallb isWhiteSpace tail = true.
Proof.
  exists (rev (takeWhile isWhiteSpace (rev s))). split.
  - unfold trimEnd. rewrite <- rev_app_distr, takeWhile_dropWhile.
    now rewrite rev_involutive.
  - rewrite forallb_forall. intros c Hc. apply in_rev in Hc.
    pose proof (takeWhile_all isWhiteSpace (rev s)) as Hall.
    rewrite forallb_forall in Hall. now apply Hall.
Qed.

Lemma trimEnd_idempotent (s : jsstring) : trimEnd (trimEnd s) = trimEnd s.
Proof.
  unfold trimEnd. now rewrite rev_involutive, dropWhile_idempotent.
Qed.

Lemma trimEnd_startsClean (s : jsstring) :
  startsClean isWhiteSpace s -> startsClean isWhiteSpace (trimEnd s).
Proof.
  destruct s as [|c rest]; simpl; [intros _; exact I|].
  intros Hc. unfold trimEnd. simpl rev.
  rewrite dropWhile_snoc by exact Hc.
  rewrite rev_app_distr. simpl. exact Hc.
Qed.

Lemma trim_startsClean (s : jsstring) : startsClean isWhiteSpace (trim s).
Proof.
  unfold trim, trimStart. apply trimEnd_startsClean, dropWhile_startsClean.
Qed.

Lemma trim_idempotent (s : jsstring) : trim (trim s) = trim s.
Proof.
  unfold trim at 1. unfold trimStart.
  rewrite startsClean_dropWhile by apply trim_startsClean.
  unfold trim. apply trimEnd_idempotent.
Qed.

End Trim.

(* ================================================================== *)
(** ** normalizeText *)
(* ================================================================== *)

Section Normalize.
Import JS Parser.

Lemma collapsed_tail (b : bool) (c : code_unit) (rest : jsstring) :
  collapsed b (c :: rest) -> collapsed (isWhiteSpace c) rest.
Proof.
  simpl. destruct (isWhiteSpace c); [now intros (_ & _ & H) | trivial].
Qed.

Lemma collapsed_weaken (b : bool) (s : jsstring) :
  collapsed b s -> collapsed false s.
Proof.
  destruct s as [|c rest]; simpl; [trivial|].
  destruct (isWhiteSpace c); [now intros (H1 & _ & H3) | trivial].
Qed.

Lemma collapsed_dropWhile (b : bool) (s : jsstring) :
  collapsed b s -> collapsed false (dropWhile isWhiteSpace s).
Proof.
  revert b. induction s as [|c rest IH]; intros b H; simpl; [exact I|].
  destruct (isWhiteSpace c) eqn:Hc.
  - apply collapsed_tail in H. now apply IH in H.
  - now apply collapsed_weaken in H.
Qed.

Lemma collapsed_prefix (b : bool) (s tail : jsstring) :
  collapsed b (s ++ tail) -> collapsed b s.
Proof.
  revert b. induction s as [|c rest IH]; intros b; simpl; [trivial|].
  destruct (isWhiteSpace c).
  - intros (H1 & H2 & H3). repeat split; trivial. now apply IH.
  - apply IH.
Qed.

Lemma collapsed_trim (s : jsstring) :
  collapsed false s -> collapsed false (trim s).
Proof.
  intros H. unfold trim, trimStart.
  apply collapsed_dropWhile in H.
  destruct (trimEnd_prefix (dropWhile isWhiteSpace s)) as (tail & Heq & _).
  rewrite Heq in H. now apply collapsed_prefix in H.
Qed.

Lemma replaceWhitespaceRuns_collapsed (b : bool) (s : jsstring) :
  collapsed b (replaceWhitespaceRuns b s).
Proof.
  revert b. induction s as [|c rest IH]; intros b; simpl; [exact I|].
  destruct (isWhiteSpace c) eqn:Hc.
  - destruct b; [apply IH|].
    simpl. change (isWhiteSpace SPACE) with true. cbv iota.
    repeat split. apply IH.
  - simpl. rewrite Hc. apply IH.
Qed.

Lemma replaceWhitespaceRuns_fixed (b : bool) (s : jsstring) :
  collapsed b s -> replaceWhitespaceRuns b s = s.
Proof.
  revert b. induction s as [|c rest IH]; intros b; simpl; [reflexivity|].
  destruct (isWhiteSpace c).
  - intros (-> & -> & H). now rewrite IH.
  - intros H. now rewrite IH.
Qed.

Lemma normalizeText_collapsed (x : jsstring) :
  collapsed false (normalizeText x).
Proof.
  unfold normalizeText. apply collapsed_trim, replaceWhitespaceRuns_collapsed.
Qed.

End Normalize.

(** C6. Text normalization is idempotent: normalizing an already normalized
    text returns it unchanged, for every text.  The normalized text carries
    whitespace only as single spaces and starts with none. *)
Theorem normalizeText_idempotent (x : JS.jsstring) :
  Parser.normalizeText (Parser.normalizeText x) = Parser.normalizeText x
  /\ collapsed false (Parser.normalizeText x)
  /\ startsClean JS.isWhiteSpace (Parser.normalizeText x)
  /\ JS.trimEnd (Parser.normalizeText x) = Parser.normalizeText x.
Proof.
  repeat split.
  - unfold Parser.normalizeText at 1.
    rewrite replaceWhitespaceRuns_fixed by apply normalizeText_collapsed.
    unfold Parser.normalizeText. apply trim_idempotent.
  - apply normalizeText_collapsed.
  - apply trim_startsClean.
  - unfold Parser.normalizeText, JS.trim. apply trimEnd_idempotent.
Qed.

(* ================================================================== *)
(** ** parsePriceFromText *)
(* ================================================================== *)

Section PricePattern.
Import JS Parser.

Lemma digitOrComma_not_space (c : code_unit) :
  isDigitOrComma c = true -> isWhiteSpace c = false.
Proof. intros H. code_unit_cases. Qed.

Lemma digit_not_comma (c : code_unit) : isDigit c = true -> (c =? COMMA)%N = false.
Proof. intros H. code_unit_cases. Qed.

Lemma digitOrComma_cases (c : code_unit) :
  isDigitOrComma c = true -> (c =? COMMA)%N = false -> isDigit c = true.
Proof. unfold isDigitOrComma. intros H Hc. rewrite Hc, orb_false_r in H. exact H. Qed.

(** *** The pattern, declaratively *)

Lemma matchFraction_spec (s : jsstring) :
  isFractionPart (matchFraction s)
  /\ exists post, s = matchFraction s ++ post.
Proof.
  unfold matchFraction, isFractionPart.
  destruct s as [|c [|d1 rest]]; try (split; [now left | now eexists]).
  destruct ((c =? DOT)%N && isDigit d1) eqn:H; [|split; [now left | now eexists]].
  apply andb_true_iff in H as [Hc Hd1]. apply N.eqb_eq in Hc. subst c.
  destruct rest as [|d2 rest'].
  - split; [|now exists []]. right. exists [d1]. simpl. rewrite Hd1. repeat split; lia.
  - destruct (isDigit d2) eqn:Hd2.
    + split; [|now exists rest']. right. exists [d1; d2]. simpl.
      rewrite Hd1, Hd2. repeat split; lia.
    + split; [|now exists (d2 :: rest')]. right. exists [d1]. simpl.
      rewrite Hd1. repeat split; lia.
Qed.

Lemma matchAfterDollar_sound (s group1 : jsstring) :
  matchAfterDollar s = Some group1 ->
  exists ws body frac post,
    s = ws ++ body ++ frac ++ post /\ group1 = body ++ frac
    /\ forallb isWhiteSpace ws = true
    /\ body <> [] /\ forallb isDigitOrComma body = true
    /\ isFractionPart frac.
Proof.
  unfold matchAfterDollar. intros H.
  set (afterSpace := dropWhile isWhiteSpace s) in *.
  destruct (takeWhile isDigitOrComma afterSpace) as [|b body] eqn:Hbody;
    [discriminate|].
  injection H as <-.
  destruct (matchFraction_spec (dropWhile isDigitOrComma afterSpace))
    as (Hfrac & post & Hpost).
  exists (takeWhile isWhiteSpace s), (b :: body),
         (matchFraction (dropWhile isDigitOrComma afterSpace)), post.
  repeat split.
  - rewrite <- (takeWhile_dropWhile isWhiteSpace s) at 1. f_equal.
    fold afterSpace.
    rewrite <- (takeWhile_dropWhile isDigitOrComma afterSpace) at 1.
    rewrite Hbody. f_equal. exact Hpost.
  - apply takeWhile_all.
  - discriminate.
  - rewrite <- Hbody. apply takeWhile_all.
  - exact Hfrac.
Qed.

Lemma matchAfterDollar_complete (ws body tail : jsstring) :
  forallb isWhiteSpace ws = true ->
  body <> [] -> forallb isDigitOrComma body = true ->
  matchAfterDollar (ws ++ body ++ tail) <> None.
Proof.
  intros Hws Hne Hbody. unfold matchAfterDollar.
  rewrite dropWhile_all_app by exact Hws.
  destruct body as [|b body']; [contradiction|].
  simpl in Hbody. apply andb_true_iff in Hbody as [Hb Hbody'].
  simpl. rewrite (digitOrComma_not_space _ Hb). simpl. rewrite Hb. discriminate.
Qed.

Lemma matchPricePattern_sound (text group1 : jsstring) :
  matchPricePattern text = Some group1 ->
  exists pre ws body frac post,
    text = pre ++ [DOLLAR] ++ ws ++ body ++ frac ++ post
    /\ group1 = body ++ frac
    /\ forallb isWhiteSpace ws = true
    /\ body <> [] /\ forallb isDigitOrComma body = true
    /\ isFractionPart frac.
Proof.
  induction text as [|c rest IH]; simpl; [discriminate|].
  intros H.
  assert (Hrec : matchPricePattern rest = Some group1 ->
          exists pre ws body frac post,
            c :: rest = pre ++ [DOLLAR] ++ ws ++ body ++ frac ++ post
            /\ group1 = body ++ frac
            /\ forallb isWhiteSpace ws = true
            /\ body <> [] /\ forallb isDigitOrComma body = true
            /\ isFractionPart frac).
  { intros Hr. destruct (IH Hr) as (pre & ws & body & frac & post & -> & Hrest).
    exists (c :: pre), ws, body, frac, post. split; [reflexivity | exact Hrest]. }
  destruct (N.eqb_spec c DOLLAR) as [-> | Hc]; [|now apply Hrec].
  destruct (matchAfterDollar rest) as [g|] eqn:Hm; [|now apply Hrec].
  injection H as ->.
  destruct (matchAfterDollar_sound _ Hm)
    as (ws & body & frac & post & -> & Hrest).
  exists [], ws, body, frac, post. split; [reflexivity | exact Hrest].
Qed.

Lemma matchPricePattern_complete (text : jsstring) :
  pricePatternOccurs text -> matchPricePattern text <> None.
Proof.
  intros (pre & ws & body & frac & post & -> & Hws & Hne & Hbody & _).
  induction pre as [|c pre IH]; simpl.
  - pose proof (@matchAfterDollar_complete ws body (frac ++ post) Hws Hne Hbody) as H.
    destruct (matchAfterDollar (ws ++ body ++ frac ++ post)); [discriminate | contradiction].
  - destruct (c =? DOLLAR)%N; [|exact IH].
    destruct (matchAfterDollar _); [discriminate | exact IH].
Qed.

Lemma matchPricePattern_none (text : jsstring) :
  matchPricePattern text = None <-> ~ pricePatternOccurs text.
Proof.
  split.
  - intros Hnone Hocc. now apply matchPricePattern_complete in Hocc.
  - intros Hno. destruct (matchPricePattern text) as [g|] eqn:Hm; [|reflexivity].
    exfalso. apply Hno.
    destruct (matchPricePattern_sound _ Hm)
      as (pre & ws & body & frac & post & Heq & _ & Hrest).
    now exists pre, ws, body, frac, post.
Qed.

End PricePattern.

(* ================================================================== *)
(** ** Number(...) on the captured price text *)
(* ================================================================== *)

Section NumberOfPriceText.
Import JS Parser.

Lemma numberOfRational_not_NaN (neg : bool) (p q : Z) :
  isNaN (numberOfRational neg p q) = false.
Proof.
  unfold numberOfRational.
  destruct (p <=? 0)%Z; [reflexivity|].
  destruct (scaleBy p q (Z.log2 p - Z.log2 q - 52)) as [a0 b0].
  destruct (scaleBy p q _) as [a b].
  destruct (roundHalfEven a b =? 2 ^ 53)%Z.
  - cbv zeta iota beta. change (2 ^ 52)%Z with (Zpos (2 ^ 52)%positive).
    now destruct (971 <? _)%Z.
  - cbv zeta iota beta. destruct (roundHalfEven a b); try reflexivity.
    now destruct (971 <? _)%Z.
Qed.

Lemma numberOfDecimal_not_NaN (neg : bool) (d x : Z) :
  isNaN (numberOfDecimal neg d x) = false.
Proof.
  unfold numberOfDecimal. destruct (0 <=? x)%Z; apply numberOfRational_not_NaN.
Qed.

Lemma digitOrDot_not_space (c : code_unit) :
  isDigitOrDot c = true -> isWhiteSpace c = false.
Proof. intros H. code_unit_cases. Qed.

Lemma trim_without_whitespace (t : jsstring) :
  forallb isDigitOrDot t = true -> trim t = t.
Proof.
  intros H. rewrite forallb_forall in H.
  assert (Hclean : forall u, (forall c, In c u -> In c t) ->
                             dropWhile isWhiteSpace u = u).
  { intros u Hu. apply startsClean_dropWhile.
    destruct u as [|c u']; simpl; [exact I|].
    apply digitOrDot_not_space, H, Hu. now left. }
  unfold trim, trimStart, trimEnd.
  rewrite (Hclean t) by trivial.
  rewrite (Hclean (rev t)) by (intros c Hc; now apply in_rev).
  apply rev_involutive.
Qed.

Lemma nonDecimalIntegerLiteral_digits (t : jsstring) :
  forallb isDigitOrDot t = true -> nonDecimalIntegerLiteral t = None.
Proof.
  destruct t as [|z [|p [|d ds]]]; try reflexivity.
  intros H. simpl in H.
  apply andb_true_iff in H as [_ H]. apply andb_true_iff in H as [Hp _].
  unfold nonDecimalIntegerLiteral.
  assert (H1 : ((p =? 120) || (p =? 88))%N = false) by code_unit_cases.
  assert (H2 : ((p =? 111) || (p =? 79))%N = false) by code_unit_cases.
  assert (H3 : ((p =? 98) || (p =? 66))%N = false) by code_unit_cases.
  now rewrite H1, H2, H3.
Qed.

Lemma fraction_digitOrDot (frac : jsstring) :
  isFractionPart frac -> forallb isDigitOrDot frac = true.
Proof.
  intros [-> | (ds & -> & _ & Hds)]; [reflexivity|].
  simpl. rewrite forallb_forall in *. intros c Hc.
  unfold isDigitOrDot. now rewrite (Hds c Hc).
Qed.

Lemma digits_digitOrDot (ds : jsstring) :
  forallb isDigit ds = true -> forallb isDigitOrDot ds = true.
Proof.
  rewrite !forallb_forall. intros H c Hc. unfold isDigitOrDot. now rewrite H.
Qed.

Lemma takeWhile_digits (ds : jsstring) :
  forallb isDigit ds = true -> takeWhile isDigit ds = ds.
Proof.
  intros H. rewrite <- (app_nil_r ds) at 1.
  rewrite takeWhile_all_app by exact H. apply app_nil_r.
Qed.

Lemma dropWhile_digits (ds : jsstring) :
  forallb isDigit ds = true -> dropWhile isDigit ds = [].
Proof.
  intros H. rewrite <- (app_nil_r ds) at 1.
  now rewrite dropWhile_all_app by exact H.
Qed.

(** Digits followed by the optional decimals always form a decimal literal. *)
Lemma strUnsignedDecimalLiteral_price (neg : bool) (ds frac : jsstring) :
  forallb isDigit ds = true -> isFractionPart frac -> ds ++ frac <> [] ->
  isNaN (strUnsignedDecimalLiteral neg (ds ++ frac)) = false.
Proof.
  intros Hds Hfrac Hne. unfold strUnsignedDecimalLiteral.
  destruct (jsstring_eqb (ds ++ frac) (js "Infinity")) eqn:Hinf.
  { exfalso. unfold jsstring_eqb in Hinf.
    destruct (list_eq_dec N.eq_dec (ds ++ frac) (js "Infinity")) as [E|];
      [|discriminate].
    assert (Hall : forallb isDigitOrDot (ds ++ frac) = true).
    { rewrite forallb_app, digits_digitOrDot, fraction_digitOrDot; trivial. }
    rewrite E in Hall. vm_compute in Hall. discriminate. }
  rewrite takeWhile_all_app, dropWhile_all_app by exact Hds.
  destruct Hfrac as [-> | (fs & -> & Hlen & Hfs)].
  - simpl. rewrite !app_nil_r in *.
    destruct ds as [|d ds']; [contradiction|]. simpl.
    apply numberOfDecimal_not_NaN.
  - simpl. change (DOT =? DOT)%N with true. cbv iota.
    rewrite takeWhile_digits, dropWhile_digits by exact Hfs.
    destruct fs as [|f fs']; [simpl in Hlen; lia|].
    rewrite andb_false_r. apply numberOfDecimal_not_NaN.
Qed.

Lemma Number_price (ds frac : jsstring) :
  forallb isDigit ds = true -> isFractionPart frac ->
  isNaN (Number (ds ++ frac)) = false.
Proof.
  intros Hds Hfrac.
  assert (Hall : forallb isDigitOrDot (ds ++ frac) = true).
  { rewrite forallb_app, digits_digitOrDot, fraction_digitOrDot; trivial. }
  unfold Number. rewrite trim_without_whitespace by exact Hall.
  destruct (ds ++ frac) as [|c rest] eqn:Ht; [reflexivity|].
  rewrite nonDecimalIntegerLiteral_digits by exact Hall.
  simpl in Hall. apply andb_true_iff in Hall as [Hc _].
  assert (Hplus : (c =? PLUS)%N = false) by code_unit_cases.
  assert (Hminus : (c =? MINUS)%N = false) by code_unit_cases.
  rewrite Hplus, Hminus, <- Ht.
  apply strUnsignedDecimalLiteral_price; trivial.
  rewrite Ht. discriminate.
Qed.

Lemma removeCommas_body (body : jsstring) :
  forallb isDigitOrComma body = true ->
  forallb isDigit (removeCommas body) = true.
Proof.
  induction body as [|c rest IH]; simpl; [reflexivity|].
  intros H. apply andb_true_iff in H as [Hc Hrest].
  destruct (c =? COMMA)%N eqn:Hcomma; simpl; [now apply IH|].
  rewrite (digitOrComma_cases _ Hc Hcomma). now apply IH.
Qed.

Lemma removeCommas_fraction (frac : jsstring) :
  isFractionPart frac -> removeCommas frac = frac.
Proof.
  intros [-> | (ds & -> & _ & Hds)]; [reflexivity|].
  unfold removeCommas. simpl. f_equal.
  induction ds as [|d ds' IH]; simpl; [reflexivity|].
  simpl in Hds. apply andb_true_iff in Hds as [Hd Hds'].
  rewrite (digit_not_comma _ Hd). simpl. now rewrite IH.
Qed.

(** Whatever the pattern captures converts to a Number that is not NaN. *)
Lemma captured_price_not_NaN (text group1 : jsstring) :
  matchPricePattern text = Some group1 ->
  isNaN (Number (removeCommas group1)) = false.
Proof.
  intros Hm.
  destruct (matchPricePattern_sound _ Hm)
    as (pre & ws & body & frac & post & _ & -> & _ & _ & Hbody & Hfrac).
  assert (Hsplit : removeCommas (body ++ frac) = removeCommas body ++ frac).
  { rewrite <- (removeCommas_fraction Hfrac) at 2. apply filter_app. }
  rewrite Hsplit.
  apply Number_price; [now apply removeCommas_body | exact Hfrac].
Qed.

End NumberOfPriceText.

(** The doubles of the reference prices. *)
Lemma reference_doubles :
  nearestDouble (S754_finite false 7034059667999293 (-48)) 2499 100
  /\ nearestDouble (S754_finite false 5429388417957888 (-42)) 12345 10
  /\ nearestDouble (S754_zero false) 0 1.
Proof.
  unfold nearestDouble. repeat split; vm_compute; congruence.
Qed.

(** C5. Price parsing: "$24.99" gives 24.99, "$1,234.5" gives 1234.5,
    "no price here" gives null and "$0" gives 0; and for every text the result
    is null exactly when the price pattern does not occur in it or the
    captured text, commas removed, converts to NaN. *)
Theorem parsePriceFromText_spec :
  Parser.parsePriceFromText (JS.js "$24.99")
    = Some (S754_finite false 7034059667999293 (-48))
  /\ nearestDouble (S754_finite false 7034059667999293 (-48)) 2499 100
  /\ Parser.parsePriceFromText (JS.js "$1,234.5")
    = Some (S754_finite false 5429388417957888 (-42))
  /\ nearestDouble (S754_finite false 5429388417957888 (-42)) 12345 10
  /\ Parser.parsePriceFromText (JS.js "no price here") = None
  /\ Parser.parsePriceFromText (JS.js "$0") = Some (S754_zero false)
  /\ forall text,
       Parser.parsePriceFromText text = None <->
       (~ pricePatternOccurs text
        \/ exists group1,
             Parser.matchPricePattern text = Some group1
             /\ JS.isNaN (JS.Number (Parser.removeCommas group1)) = true).
Proof.
  destruct reference_doubles as (H1 & H2 & _).
  split; [vm_compute; reflexivity|]. split; [exact H1|].
  split; [vm_compute; reflexivity|]. split; [exact H2|].
  split; [vm_compute; reflexivity|]. split; [vm_compute; reflexivity|].
  intros text. split.
  - unfold Parser.parsePriceFromText. intros H.
    destruct (Parser.matchPricePattern text) as [g|] eqn:Hm.
    + right. exists g. split; [reflexivity|].
      now destruct (JS.isNaN (JS.Number (Parser.removeCommas g))).
    + left. now apply matchPricePattern_none.
  - unfold Parser.parsePriceFromText. intros [Hno | (g & Hm & Hnan)].
    + apply matchPricePattern_none in Hno. now rewrite Hno.
    + now rewrite Hm, Hnan.
Qed.

Lemma parsePriceFromText_spec_witness :
  Parser.parsePriceFromText (JS.js "no price here") = None.
Proof.
  apply (proj2 (proj2 (proj2 (proj2 (proj2 (proj2 parsePriceFromText_spec)))))).
  left. apply matchPricePattern_none. reflexivity.
Defined.

(** C9. The NaN branch of parsePriceFromText is unreachable: whenever the
    price pattern matches, the captured text with its commas removed converts
    to a Number that is not NaN, so the result is null only when the pattern
    is absent; a dollar sign followed only by commas captures text that strips
    to the empty string, which converts to 0, and the result is 0. *)
Theorem parsePriceFromText_never_NaN :
  (forall text group1,
     Parser.matchPricePattern text = Some group1 ->
     JS.isNaN (JS.Number (Parser.removeCommas group1)) = false
     /\ Parser.parsePriceFromText text
        = Some (JS.Number (Parser.removeCommas group1)))
  /\ (forall text,
       Parser.parsePriceFromText text = None <-> ~ pricePatternOccurs text)
  /\ Parser.matchPricePattern (JS.js "$,") = Some (JS.js ",")
  /\ Parser.removeCommas (JS.js ",") = []
  /\ JS.Number [] = S754_zero false
  /\ Parser.parsePriceFromText (JS.js "$,") = Some (S754_zero false).
Proof.
  split; [|split; [|repeat split; vm_compute; reflexivity]].
  - intros text group1 H. split.
    + now apply captured_price_not_NaN with (text := text).
    + unfold Parser.parsePriceFromText. rewrite H.
      now rewrite (captured_price_not_NaN _ H).
  - intros text. split.
    + intros H. apply matchPricePattern_none.
    unfold Parser.parsePriceFromText in H.
    destruct (Parser.matchPricePattern text) as [g|] eqn:Hm; [|reflexivity].
      now rewrite (captured_price_not_NaN _ Hm) in H.
    + intros H. apply matchPricePattern_none in H.
      unfold Parser.parsePriceFromText. now rewrite H.
Qed.

Lemma parsePriceFromText_never_NaN_witness :
  JS.isNaN (JS.Number (Parser.removeCommas (JS.js "1,234.5"))) = false
  /\ Parser.parsePriceFromText (JS.js "Total: CA$ 1,234.5")
     = Some (JS.Number (Parser.removeCommas (JS.js "1,234.5"))).
Proof.
  apply (proj1 parsePriceFromText_never_NaN (JS.js "Total: CA$ 1,234.5")).
  reflexivity.
Defined.

(* ================================================================== *)
(** ** buildScrapedOrder and the signature *)
(* ================================================================== *)

Section Signature.
Import JS Parser.

Lemma noUnderscore_app (a b : jsstring) :
  noUnderscore a -> noUnderscore b -> noUnderscore (a ++ b).
Proof.
  unfold noUnderscore. intros Ha Hb. rewrite forallb_app.
  apply andb_true_iff. now split.
Qed.

Lemma noUnderscore_firstn_skipn (n : nat) (s : jsstring) :
  noUnderscore s -> noUnderscore (firstn n s) /\ noUnderscore (skipn n s).
Proof.
  unfold noUnderscore. intros H.
  rewrite <- (firstn_skipn n s), forallb_app in H.
  now apply andb_true_iff in H.
Qed.

Lemma noUnderscore_firstn (n : nat) (s : jsstring) :
  noUnderscore s -> noUnderscore (firstn n s).
Proof. intros H. now apply noUnderscore_firstn_skipn. Qed.

Lemma noUnderscore_skipn (n : nat) (s : jsstring) :
  noUnderscore s -> noUnderscore (skipn n s).
Proof. intros H. now apply noUnderscore_firstn_skipn. Qed.

Lemma noUnderscore_uintDigits (u : Decimal.uint) : noUnderscore (uintDigits u).
Proof.
  unfold noUnderscore. induction u; simpl; trivial.
Qed.

Lemma noUnderscore_decimalDigits (n : Z) : noUnderscore (decimalDigits n).
Proof. apply noUnderscore_uintDigits. Qed.

Lemma noUnderscore_zeros (n : Z) : noUnderscore (zeros n).
Proof.
  unfold noUnderscore, zeros. induction (Z.to_nat n); simpl; trivial.
Qed.

Lemma noUnderscore_formatDecimal (digits : jsstring) (n : Z) :
  noUnderscore digits -> noUnderscore (formatDecimal digits n).
Proof.
  intros Hd. unfold formatDecimal.
  assert (Hexp : forall x,
    noUnderscore ([101%N] ++ [if (x <? 0)%Z then MINUS else PLUS]
                  ++ decimalDigits (Z.abs x))).
  { intros x. repeat apply noUnderscore_app;
      [reflexivity | now destruct (x <? 0)%Z | apply noUnderscore_decimalDigits]. }
  repeat match goal with |- context [if ?b then _ else _] => destruct b end;
    try (destruct digits as [|d [|d' digits']]);
    repeat apply noUnderscore_app;
    auto using noUnderscore_firstn, noUnderscore_skipn, noUnderscore_zeros,
               noUnderscore_decimalDigits;
    try reflexivity.
  all: unfold noUnderscore in *; simpl in *;
       repeat match goal with
       | H : _ && _ = true |- _ => apply andb_true_iff in H as [? ?]
       end; try assumption; try (now rewrite ?andb_true_r).
Qed.

Lemma noUnderscore_positiveToString (m : positive) (e : Z) :
  noUnderscore (positiveToString m e).
Proof.
  unfold positiveToString.
  destruct (scaleBy (Z.pos m) 1 (- e)) as [p q].
  destruct (numberOfRational false p q); try reflexivity.
  destruct (shortestDigitsFrom _ _ _ _ _ _ _) as [sd k].
  destruct (sd =? 10 ^ k)%Z;
    apply noUnderscore_formatDecimal, noUnderscore_decimalDigits.
Qed.

(** The text of a Number never holds an underscore. *)
Lemma noUnderscore_toString (x : number) : noUnderscore (toString x).
Proof.
  destruct x as [s | s | | s m e]; simpl.
  - reflexivity.
  - now destruct s.
  - reflexivity.
  - apply noUnderscore_app; [now destruct s | apply noUnderscore_positiveToString].
Qed.

(** A text free of underscores before the delimiter is cut off by it. *)
Lemma delimiter_cut (a1 a2 r1 r2 : jsstring) :
  noUnderscore a1 -> noUnderscore a2 ->
  a1 ++ js "__" ++ r1 = a2 ++ js "__" ++ r2 -> a1 = a2 /\ r1 = r2.
Proof.
  revert a2. induction a1 as [|c a1' IH]; intros [|d a2'] H1 H2 Heq.
  - split; [reflexivity|]. now injection Heq.
  - exfalso. injection Heq as Hd _. subst d.
    unfold noUnderscore in H2. simpl in H2. discriminate.
  - exfalso. injection Heq as Hc _. subst c.
    unfold noUnderscore in H1. simpl in H1. discriminate.
  - injection Heq as -> Heq.
    unfold noUnderscore in H1, H2. simpl in H1, H2.
    apply andb_true_iff in H1 as [_ H1]. apply andb_true_iff in H2 as [_ H2].
    destruct (IH a2' H1 H2 Heq) as [-> ->]. now split.
Qed.

Lemma noUnderscore_rev (s : jsstring) : noUnderscore s -> noUnderscore (rev s).
Proof.
  unfold noUnderscore. rewrite !forallb_forall. intros H c Hc.
  apply H. now apply in_rev.
Qed.

Lemma delimiter_cut_right (t1 t2 s1 s2 : jsstring) :
  noUnderscore s1 -> noUnderscore s2 ->
  t1 ++ js "__" ++ s1 = t2 ++ js "__" ++ s2 -> t1 = t2 /\ s1 = s2.
Proof.
  intros H1 H2 Heq.
  apply (f_equal (@rev code_unit)) in Heq.
  rewrite !rev_app_distr, <- !app_assoc in Heq.
  change (rev (js "__")) with (js "__") in Heq.
  apply delimiter_cut in Heq; auto using noUnderscore_rev.
  destruct Heq as [Hs Ht].
  apply (f_equal (@rev code_unit)) in Hs, Ht.
  rewrite !rev_involutive in Hs, Ht. now split.
Qed.

Lemma signature_cut (n1 n2 t1 t2 : jsstring) (p1 p2 : number) :
  noUnderscore n1 -> noUnderscore n2 ->
  sourceSignature (buildScrapedOrder n1 p1 t1)
    = sourceSignature (buildScrapedOrder n2 p2 t2) ->
  n1 = n2 /\ t1 = t2 /\ toString p1 = toString p2.
Proof.
  simpl. intros H1 H2 Heq.
  apply delimiter_cut in Heq as [-> Heq]; trivial.
  apply delimiter_cut_right in Heq as [-> Hp];
    auto using noUnderscore_toString.
Qed.

End Signature.

(** C2. buildScrapedOrder copies its three inputs and sets the signature to
    restaurantName, "__", orderedAtText, "__" and the decimal text of
    totalPrice; for ("Example", 24.99, "Feb 22, 2026, 10:09:13 AM") the
    signature is "Example__Feb 22, 2026, 10:09:13 AM__24.99". *)
Theorem buildScrapedOrder_spec :
  (forall restaurantName totalPrice orderedAtText,
     let order := Parser.buildScrapedOrder restaurantName totalPrice orderedAtText in
     Parser.restaurantName order = restaurantName
     /\ Parser.totalPrice order = totalPrice
     /\ Parser.orderedAtText order = orderedAtText
     /\ Parser.sourceSignature order
        = (restaurantName ++ JS.js "__" ++ orderedAtText ++ JS.js "__"
           ++ JS.toString totalPrice))
  /\ nearestDouble (S754_finite false 7034059667999293 (-48)) 2499 100
  /\ JS.toString (S754_finite false 7034059667999293 (-48)) = JS.js "24.99"
  /\ Parser.sourceSignature
       (Parser.buildScrapedOrder (JS.js "Example")
          (S754_finite false 7034059667999293 (-48))
          (JS.js "Feb 22, 2026, 10:09:13 AM"))
     = JS.js "Example__Feb 22, 2026, 10:09:13 AM__24.99".
Proof.
  split; [intros; repeat split|].
  split; [apply reference_doubles|].
  split; vm_compute; reflexivity.
Qed.

(** C3, as the claim states it, fails: the signature is not injective on the
    triple, because the delimiter can occur inside a field. *)
Lemma sourceSignature_not_injective :
  ~ (forall n1 p1 t1 n2 p2 t2,
       (n1, p1, t1) <> (n2, p2, t2) ->
       Parser.sourceSignature (Parser.buildScrapedOrder n1 p1 t1)
       <> Parser.sourceSignature (Parser.buildScrapedOrder n2 p2 t2)).
Proof.
  intros H.
  apply (H (JS.js "a__b") (S754_zero false) (JS.js "c")
           (JS.js "a") (S754_zero false) (JS.js "b__c")).
  - intros E. discriminate E.
  - vm_compute. reflexivity.
Qed.

(** C3, amended. For restaurant names that hold no underscore the signature
    tells the triples apart: two triples that differ in the name, in the
    timestamp text or in the decimal text of the price have distinct
    signatures; in particular changing the price from 24.99 to 25.99, name and
    timestamp unchanged, changes the signature. *)
Theorem sourceSignature_injective_without_underscore :
  (forall n1 p1 t1 n2 p2 t2,
     noUnderscore n1 -> noUnderscore n2 ->
     n1 <> n2 \/ t1 <> t2 \/ JS.toString p1 <> JS.toString p2 ->
     Parser.sourceSignature (Parser.buildScrapedOrder n1 p1 t1)
     <> Parser.sourceSignature (Parser.buildScrapedOrder n2 p2 t2))
  /\ nearestDouble (S754_finite false 7034059667999293 (-48)) 2499 100
  /\ nearestDouble (S754_finite false 7315534644709949 (-48)) 2599 100
  /\ (forall name timestamp,
       Parser.sourceSignature
         (Parser.buildScrapedOrder name
            (S754_finite false 7034059667999293 (-48)) timestamp)
       <> Parser.sourceSignature
            (Parser.buildScrapedOrder name
               (S754_finite false 7315534644709949 (-48)) timestamp)).
Proof.
  split; [|split; [|split]].
  - intros n1 p1 t1 n2 p2 t2 H1 H2 Hdiff Heq.
    destruct (signature_cut _ _ _ _ H1 H2 Heq) as (Hn & Ht & Hp).
    destruct Hdiff as [Hd | [Hd | Hd]]; contradiction.
  - apply reference_doubles.
  - unfold nearestDouble. repeat split; vm_compute; congruence.
  - intros name timestamp Heq.
    cbn [Parser.sourceSignature Parser.buildScrapedOrder] in Heq.
    apply app_inv_head in Heq. apply app_inv_head in Heq.
    apply app_inv_head in Heq. apply app_inv_head in Heq.
    vm_compute in Heq. discriminate Heq.
Qed.

Lemma sourceSignature_injective_without_underscore_witness :
  Parser.sourceSignature
    (Parser.buildScrapedOrder (JS.js "Example") (S754_zero false) (JS.js "Feb 22"))
  <> Parser.sourceSignature
       (Parser.buildScrapedOrder (JS.js "Sample") (S754_zero false) (JS.js "Feb 22")).
Proof.
  apply (proj1 sourceSignature_injective_without_underscore).
  - reflexivity.
  - reflexivity.
  - left. discriminate.
Defined.

(* ================================================================== *)
(** ** extractOrdersFromTable *)
(* ================================================================== *)

Section Extraction.
Import JS Parser Scraper.

Lemma orElse_rowRestaurantName (row : Row) :
  orElse (normalizeText (orEmpty (spanTextContentAt row 1)))
         (normalizeText (orEmpty (textContentAt row 1)))
  = rowRestaurantName row.
Proof.
  unfold rowRestaurantName, columnText, orElse.
  now destruct (normalizeText (orEmpty (spanTextContentAt row 1))).
Qed.

Lemma extractLoop_orders (debug : bool) (rows : list Row) :
  forall index orders console,
    fst (extractLoop debug index rows orders console)
    = orders ++ flat_map rowOrders rows.
Proof.
  induction rows as [|cells rest IH]; intros index orders console; simpl.
  - now rewrite app_nil_r.
  - unfold rowOrders at 1, rowOrder, rowPrice, rowTimestamp.
    rewrite orElse_rowRestaurantName. fold (columnText cells 0).
    fold (columnText cells 4).
    destruct (Nat.ltb_spec (length cells) 5) as [Hlt | Hge].
    + rewrite IH.
      replace (5 <=? length cells)%nat with false
        by (symmetry; apply Nat.leb_gt; exact Hlt).
      now destruct (parsePriceFromText (columnText cells 4)).
    + replace (5 <=? length cells)%nat with true
        by (symmetry; apply Nat.leb_le; exact Hge).
      destruct (columnText cells 0) as [|t0 t] eqn:Ht;
        destruct (rowRestaurantName cells) as [|n0 n] eqn:Hn;
        destruct (parsePriceFromText (columnText cells 4)) as [price|] eqn:Hp;
        simpl; rewrite IH; try reflexivity.
      now rewrite <- app_assoc.
Qed.



(** A row with too few cells and a row whose price text holds no price are
    left out; the span text, when blank, gives way to the cell text. *)
Lemma rowOrders_examples :
  rowOrders shortRow = []
  /\ rowOrders unpricedRow = []
  /\ rowRestaurantName unpricedRow = js "Example"
  /\ rowOrders exampleRow
     = [buildScrapedOrder (js "Example")
          (S754_finite false 7034059667999293 (-48))
          (js "Feb 22, 2026, 10:09:13 AM")].
Proof. repeat split; vm_compute; reflexivity. Qed.

Lemma extractOrdersFromTable_orders (debug : bool) (table : Table) :
  fst (extractOrdersFromTable debug table) = flat_map rowOrders table.
Proof.
  unfold extractOrdersFromTable.
  pose proof (extractLoop_orders debug table 0 [] []) as H.
  destruct (extractLoop debug 0 table [] []) as [orders console].
  exact H.
Qed.

End Extraction.



(* ================================================================== *)
(** ** expandOrdersTable *)
(* ================================================================== *)

Section Expansion.
Import JS Scraper.
Variable debug : bool.
Variable count : nat -> nat.

(** The loop never runs past the values of [iteration] it is given. *)
Lemma expandLoop_bound (remaining : nat) :
  forall j previous stable console,
    (iterations (expandLoop debug count remaining (S j) previous stable console)
     <= j + remaining)%nat.
Proof.
  induction remaining as [|r IH]; intros j previous stable console;
    cbn [expandLoop].
  - cbn [iterations]. lia.
  - destruct (previous <? count (S j))%nat.
    + eapply Nat.le_trans; [apply IH|lia].
    + destruct (3 <=? stable + 1)%nat; cbn [iterations]; [lia|].
      eapply Nat.le_trans; [apply IH|lia].
Qed.

(** Once the count no longer exceeds [previous], the loop stops at the third
    stable pass or when the iterations run out. *)
Lemma expandLoop_stable (previous : nat) (remaining : nat) :
  forall j stable console,
    (forall i, (j < i)%nat -> (count i <= previous)%nat) ->
    (stable < 3)%nat ->
    iterations (expandLoop debug count remaining (S j) previous stable console)
    = (j + Nat.min remaining (3 - stable))%nat.
Proof.
  induction remaining as [|r IH]; intros j stable console Hflat Hstable;
    cbn [expandLoop].
  - cbn [iterations]. lia.
  - assert (Hno : (previous <? count (S j))%nat = false).
    { apply Nat.ltb_ge, Hflat. lia. }
    rewrite Hno.
    destruct (Nat.leb_spec 3 (stable + 1)) as [H3 | H3]; cbn [iterations].
    + lia.
    + rewrite IH; [lia | intros i Hi; apply Hflat; lia | lia].
Qed.

(** While the count grows at every poll, the loop goes on with no stable
    pass counted. *)
Lemma expandLoop_growing (K : nat) (d : nat) :
  stopsGrowingAfter count K ->
  forall remaining j console,
    (j + d = K)%nat ->
    iterations (expandLoop debug count remaining (S j) (count j) 0 console)
    = Nat.min (K + 3) (j + remaining).
Proof.
  intros [Hgrow Hflat].
  induction d as [|d IH]; intros remaining j console Hj.
  - replace j with K in * by lia.
    rewrite expandLoop_stable; [lia | | lia].
    intros i Hi. now apply Hflat.
  - destruct remaining as [|r]; cbn [expandLoop]; [cbn [iterations]; lia|].
    assert (Hyes : (count j <? count (S j))%nat = true).
    { apply Nat.ltb_lt, Hgrow. lia. }
    rewrite Hyes. rewrite IH by lia. lia.
Qed.

Lemma expandOrdersTableUpTo_growing (limit K : nat) :
  stopsGrowingAfter count K ->
  iterations (expandOrdersTableUpTo limit debug count) = Nat.min (K + 3) limit.
Proof.
  intros Hsource. unfold expandOrdersTableUpTo. cbn [iterations].
  now rewrite (@expandLoop_growing K K Hsource limit 0 []).
Qed.

Lemma expandOrdersTableUpTo_bound (limit : nat) :
  (iterations (expandOrdersTableUpTo limit debug count) <= limit)%nat.
Proof.
  unfold expandOrdersTableUpTo. cbn [iterations].
  apply (expandLoop_bound limit 0).
Qed.

End Expansion.

(** C4, as the claim states it, fails: a source that grows at every poll up
    to K = 238 and then stops is left after 240 iterations, not 241. *)
Lemma expandOrdersTable_not_always_K_plus_3 :
  ~ (forall debug count K,
       stopsGrowingAfter count K ->
       Scraper.iterations (Scraper.expandOrdersTable debug count) = (K + 3)%nat).
Proof.
  intros H.
  specialize (H false (fun i => Nat.min i 238) 238%nat).
  assert (Hsource : stopsGrowingAfter (fun i => Nat.min i 238) 238).
  { split; intros i Hi; lia. }
  apply H in Hsource. vm_compute in Hsource. discriminate Hsource.
Qed.

(** C4, amended. For a row source that grows at every poll up to K and not
    afterwards, the loop executes exactly min (K + 3, 240) iterations, which
    is K + 3 whenever K <= 237; and for every row source whatsoever it
    executes at most 240 iterations. *)
Theorem expandOrdersTable_iterations :
  (forall debug count K,
     stopsGrowingAfter count K ->
     Scraper.iterations (Scraper.expandOrdersTable debug count)
     = Nat.min (K + 3) 240
     /\ ((K <= 237)%nat ->
         Scraper.iterations (Scraper.expandOrdersTable debug count) = (K + 3)%nat))
  /\ (forall debug count,
       (Scraper.iterations (Scraper.expandOrdersTable debug count) <= 240)%nat).
Proof.
  unfold Scraper.expandOrdersTable. split.
  - intros debug count K Hsource.
    pose proof (expandOrdersTableUpTo_growing debug 240 Hsource) as Hmin.
    split; [exact Hmin | intros HK; rewrite Hmin; lia].
  - intros debug count. exact (expandOrdersTableUpTo_bound debug count 240).
Qed.

Lemma expandOrdersTable_iterations_witness :
  Scraper.iterations
    (Scraper.expandOrdersTable true (fun i => (10 * Nat.min i 4)%nat))
  = Nat.min (4 + 3) 240
  /\ ((4 <= 237)%nat ->
      Scraper.iterations
        (Scraper.expandOrdersTable true (fun i => (10 * Nat.min i 4)%nat))
      = (4 + 3)%nat).
Proof.
  apply (proj1 expandOrdersTable_iterations true
               (fun i => (10 * Nat.min i 4)%nat) 4%nat).
  split; intros i Hi; lia.
Defined.

(* ================================================================== *)
(** ** insertOrders *)
(* ================================================================== *)

Section Insertion.
Import JS Db.

Lemma jsstring_eqb_eq (a b : jsstring) : jsstring_eqb a b = true <-> a = b.
Proof.
  unfold jsstring_eqb.
  destruct (list_eq_dec N.eq_dec a b); split; congruence.
Qed.

Lemma hasSignature_stored (db : Database) (signature : jsstring) :
  hasSignature db signature = true <-> In signature (storedSignatures db).
Proof.
  unfold hasSignature, storedSignatures. rewrite existsb_exists, in_map_iff.
  split; intros (row & H1 & H2); exists row.
  - apply jsstring_eqb_eq in H2. now split.
  - split; [exact H2 | now apply jsstring_eqb_eq].
Qed.

Lemma hasSignature_not_stored (db : Database) (signature : jsstring) :
  hasSignature db signature = false <-> ~ In signature (storedSignatures db).
Proof.
  rewrite <- hasSignature_stored. now destruct (hasSignature db signature).
Qed.

Lemma uniqueViolation_recognised : isUniqueConstraintError uniqueViolation = true.
Proof. vm_compute. reflexivity. Qed.




End Insertion.



(* ================================================================== *)
(** ** The debug toggle *)
(* ================================================================== *)

Section Debug.
Import JS Scraper.

Lemma debugScraper_off (DEBUG_SCRAPER : option jsstring) :
  debugScraper DEBUG_SCRAPER = false <-> DEBUG_SCRAPER = Some (js "0").
Proof.
  unfold debugScraper. rewrite negb_false_iff, jsstring_eqb_eq.
  destruct DEBUG_SCRAPER as [v|]; split; intros H.
  - now rewrite H.
  - now injection H.
  - vm_compute in H. discriminate H.
  - discriminate H.
Qed.

Lemma debugLog_on (message : jsstring) (details : option LogDetails) :
  debugLog true message details = [(js "[scraper:debug] " ++ message, details)].
Proof. unfold debugLog. now destruct details. Qed.

Lemma run_posted (DEBUG_SCRAPER : option jsstring) (page : Page) :
  posted (run DEBUG_SCRAPER page)
  = match flat_map rowOrders (settledTable page) with
    | [] => None
    | orders => Some orders
    end.
Proof.
  unfold run.
  pose proof (extractOrdersFromTable_orders
                (debugScraper DEBUG_SCRAPER) (settledTable page)) as H.
  destruct (extractOrdersFromTable _ _) as [orders console].
  cbn [fst] in H. subst orders. cbn [posted].
  now destruct (flat_map rowOrders (settledTable page)).
Qed.

End Debug.

(** C8, as the claim states it, fails: with the toggle unset, debugLog does
    write a line. *)
Lemma debugLog_not_silent_by_default :
  ~ (forall message details,
       Scraper.debugLog (Scraper.debugScraper None) message details = []).
Proof.
  intros H. specialize (H (JS.js "extract: summary") None).
  vm_compute in H. discriminate H.
Qed.

(** C8, amended. Debug logging is enabled by default: with the toggle unset
    debugLog writes one line for every message, and it writes nothing exactly
    when the toggle is set to "0"; the toggle never affects which orders are
    extracted or posted. *)
Theorem debug_toggle_spec :
  (forall message details,
     Scraper.debugLog (Scraper.debugScraper None) message details
     = [(JS.js "[scraper:debug] " ++ message, details)])
  /\ (forall DEBUG_SCRAPER,
       (forall message details,
          Scraper.debugLog (Scraper.debugScraper DEBUG_SCRAPER) message details = [])
       <-> DEBUG_SCRAPER = Some (JS.js "0"))
  /\ (forall debug1 debug2 table,
       fst (Scraper.extractOrdersFromTable debug1 table)
       = fst (Scraper.extractOrdersFromTable debug2 table))
  /\ (forall toggle1 toggle2 page,
       Scraper.posted (Scraper.run toggle1 page)
       = Scraper.posted (Scraper.run toggle2 page)).
Proof.
  split; [|split; [|split]].
  - intros message details. apply debugLog_on.
  - intros DEBUG_SCRAPER. rewrite <- debugScraper_off. split.
    + intros H. specialize (H [] None).
      destruct (Scraper.debugScraper DEBUG_SCRAPER); [discriminate H | reflexivity].
    + intros -> message details. reflexivity.
  - intros debug1 debug2 table. now rewrite !extractOrdersFromTable_orders.
  - intros toggle1 toggle2 page. now rewrite !run_posted.
Qed.

Lemma debug_toggle_spec_witness :
  Scraper.debugLog (Scraper.debugScraper (Some (JS.js "0")))
                   (JS.js "extract: summary") (Some (Scraper.Summary 2 1))
  = [].
Proof.
  apply (proj2 (proj1 (proj2 debug_toggle_spec) (Some (JS.js "0")))).
  reflexivity.
Defined.

(* ================================================================== *)
(** ** splitOrderedAtText, in the scraper and in the API *)
(* ================================================================== *)

Section SplitOrderedAt.
Import JS.

(** [split] cuts at every separator and nowhere else. *)
Lemma split_join (sep : code_unit) (s : jsstring) :
  join [sep] (split sep s) = s
  /\ split sep s <> []
  /\ Forall (fun segment => ~ In sep segment) (split sep s).
Proof.
  induction s as [|c rest (IHjoin & IHne & IHall)]; simpl.
  - repeat split; [discriminate | repeat constructor; auto].
  - destruct (N.eqb_spec c sep) as [-> | Hc].
    + destruct (split sep rest) as [|seg segs] eqn:Hs; [contradiction|].
      repeat split; [simpl in *; now rewrite IHjoin | discriminate |].
      constructor; [auto | exact IHall].
    + destruct (split sep rest) as [|seg segs] eqn:Hs; [contradiction|].
      repeat split.
      * destruct segs; simpl in *; now rewrite <- IHjoin.
      * discriminate.
      * inversion IHall as [|? ? Hseg Hsegs]; subst.
        constructor; [|exact Hsegs].
        intros [Heq | Hin]; [now apply Hc | now apply Hseg].
Qed.

Lemma nonEmpty_filter (segments : list jsstring) :
  filter (fun segment => (0 <? length segment)%nat) segments
  = filter (fun segment => negb (isEmpty segment)) segments.
Proof.
  apply filter_ext. now intros [|c s].
Qed.

Lemma Parser_splitOrderedAtText_segments (text : jsstring) :
  match trimmedSegments text with
  | first :: second :: third :: rest =>
      Parser.orderedDate (Parser.splitOrderedAtText text)
        = first ++ js ", " ++ second
      /\ Parser.orderedTime (Parser.splitOrderedAtText text)
         = join (js ", ") (third :: rest)
  | _ =>
      Parser.orderedDate (Parser.splitOrderedAtText text) = text
      /\ Parser.orderedTime (Parser.splitOrderedAtText text) = []
  end.
Proof.
  unfold Parser.splitOrderedAtText, trimmedSegments.
  rewrite nonEmpty_filter.
  destruct (filter _ _) as [|first [|second [|third rest]]]; now split.
Qed.

Lemma Db_splitOrderedAtText_segments (text : jsstring) :
  match trimmedSegments text with
  | first :: second :: third :: rest =>
      Db.orderedDate (Db.splitOrderedAtText text) = first ++ js ", " ++ second
      /\ Db.orderedTime (Db.splitOrderedAtText text)
         = join (js ", ") (third :: rest)
  | _ =>
      Db.orderedDate (Db.splitOrderedAtText text) = text
      /\ Db.orderedTime (Db.splitOrderedAtText text) = []
  end.
Proof.
  unfold Db.splitOrderedAtText, trimmedSegments.
  rewrite nonEmpty_filter.
  destruct (filter _ _) as [|first [|second [|third rest]]]; now split.
Qed.

End SplitOrderedAt.

(** C10. The two copies of splitOrderedAtText compute the same function: for
    every text they return the same date and the same time, namely the first
    two non-empty trimmed comma-segments joined by ", " and the remaining ones
    joined by ", " when there are at least three such segments, and otherwise
    the text itself and an empty time. *)
Theorem splitOrderedAtText_copies_agree :
  forall text,
    Parser.orderedDate (Parser.splitOrderedAtText text)
      = Db.orderedDate (Db.splitOrderedAtText text)
    /\ Parser.orderedTime (Parser.splitOrderedAtText text)
       = Db.orderedTime (Db.splitOrderedAtText text)
    /\ (forall first second remaining,
          trimmedSegments text = first :: second :: remaining ->
          remaining <> [] ->
          Parser.orderedDate (Parser.splitOrderedAtText text)
            = first ++ JS.js ", " ++ second
          /\ Parser.orderedTime (Parser.splitOrderedAtText text)
             = JS.join (JS.js ", ") remaining)
    /\ ((length (trimmedSegments text) < 3)%nat ->
        Parser.orderedDate (Parser.splitOrderedAtText text) = text
        /\ Parser.orderedTime (Parser.splitOrderedAtText text) = []).
Proof.
  intros text.
  pose proof (Parser_splitOrderedAtText_segments text) as HP.
  pose proof (Db_splitOrderedAtText_segments text) as HD.
  destruct (trimmedSegments text) as [|first [|second [|third rest]]];
    destruct HP as [HP1 HP2]; destruct HD as [HD1 HD2];
    (split; [congruence|]); (split; [congruence|]); split;
    try (intros f s r Heq Hne; try discriminate Heq;
         injection Heq as <- <- <-; try contradiction; now split);
    try (intros Hlen; now split).
  intros Hlen. simpl in Hlen. lia.
Qed.

Lemma splitOrderedAtText_copies_agree_witness :
  Parser.orderedDate (Parser.splitOrderedAtText (JS.js "Feb 22, 2026, 10:09:13 AM"))
    = JS.js "Feb 22" ++ JS.js ", " ++ JS.js "2026"
  /\ Parser.orderedTime (Parser.splitOrderedAtText (JS.js "Feb 22, 2026, 10:09:13 AM"))
     = JS.join (JS.js ", ") [JS.js "10:09:13 AM"].
Proof.
  apply (proj1 (proj2 (proj2
           (splitOrderedAtText_copies_agree (JS.js "Feb 22, 2026, 10:09:13 AM"))))).
  - reflexivity.
  - discriminate.
Defined.

(* ================================================================== *)
(** ** More about insertOrders and listOrders *)
(* ================================================================== *)

Section Table.
Import JS Db.

Lemma jsstring_eq_dec (a b : jsstring) : {a = b} + {a <> b}.
Proof. apply list_eq_dec, N.eq_dec. Qed.

Lemma rowsOf_signatures (now : jsstring) (inserted : list CreateOrderPayload) :
  forall last,
    map source_signature (rowsOf now last inserted) = map sourceSignature inserted.
Proof.
  induction inserted as [|order rest IH]; intros last; simpl;
    [reflexivity | now rewrite IH].
Qed.

Lemma rowsOf_length (now : jsstring) (inserted : list CreateOrderPayload) :
  forall last, length (rowsOf now last inserted) = length inserted.
Proof.
  induction inserted as [|order rest IH]; intros last; simpl;
    [reflexivity | now rewrite IH].
Qed.

Lemma rowsOf_ids (now : jsstring) (inserted : list CreateOrderPayload) :
  forall last,
    map id (rowsOf now last inserted) = seq (S last) (length inserted).
Proof.
  induction inserted as [|order rest IH]; intros last; simpl;
    [reflexivity | now rewrite IH].
Qed.

(** The loop in general: the orders it inserts are those that bring a
    signature neither stored nor seen earlier in the batch. *)
Lemma insertLoop_general (now : jsstring) (batch : list CreateOrderPayload) :
  forall db inserted skipped,
    exists kept,
      insertLoop now db batch inserted skipped
      = inl ({| orders := orders db ++ rowsOf now (lastId db) kept;
                lastId := lastId db + length kept |},
             {| Db.inserted := inserted + length kept;
                Db.skipped := skipped + (length batch - length kept) |})
      /\ (length kept <= length batch)%nat
      /\ (forall order, In order kept -> In order batch)
      /\ NoDup (map sourceSignature kept)
      /\ (forall signature,
            In signature (map sourceSignature kept) <->
            In signature (map sourceSignature batch)
            /\ ~ In signature (storedSignatures db)).
Proof.
  induction batch as [|order rest IH]; intros db inserted skipped.
  - exists []. cbn [insertLoop rowsOf length map].
    rewrite app_nil_r, !Nat.add_0_r. destruct db as [rows last].
    split; [reflexivity|]. split; [lia|]. split; [intros o []|].
    split; [constructor|]. intros signature.
    split; [intros [] | intros [[] _]].
  - cbn [insertLoop]. unfold stmtRun.
    destruct (hasSignature db (sourceSignature order)) eqn:Hhas.
    + rewrite uniqueViolation_recognised.
      destruct (IH db inserted (skipped + 1)%nat)
        as (kept & Hrun & Hlen & Hsub & Hnodup & Hiff).
      exists kept. rewrite Hrun. apply hasSignature_stored in Hhas.
      split; [|split; [|split; [|split]]].
      * cbn [length]. do 3 f_equal. lia.
      * cbn [length]. lia.
      * intros o Ho. right. now apply Hsub.
      * exact Hnodup.
      * intros signature. rewrite Hiff. cbn [map In]. split.
        -- intros [H1 H2]. now split; [right|].
        -- intros [[<- | H1] H2]; [contradiction | now split].
    + apply hasSignature_not_stored in Hhas.
      match goal with |- context [insertLoop now ?d rest _ _] => set (db1 := d) end.
      destruct (IH db1 (inserted + 1)%nat skipped)
        as (kept & Hrun & Hlen & Hsub & Hnodup & Hiff).
      assert (Hstored1 : storedSignatures db1
                         = storedSignatures db ++ [sourceSignature order]).
      { unfold storedSignatures, db1. cbn [orders]. now rewrite map_app. }
      exists (order :: kept). rewrite Hrun.
      split; [|split; [|split; [|split]]].
      * unfold db1. cbn [orders lastId rowsOf length].
        rewrite <- app_assoc. cbn [app]. do 2 f_equal.
        -- f_equal. lia.
        -- f_equal; lia.
      * cbn [length]. lia.
      * intros o [<- | Ho]; [now left | right; now apply Hsub].
      * cbn [map]. constructor; [|exact Hnodup].
        intros Hin. apply Hiff in Hin as [_ Hnot]. apply Hnot.
        rewrite Hstored1. apply in_or_app. right. now left.
      * intros signature. cbn [map In]. rewrite Hiff, Hstored1. split.
        -- intros [<- | [H1 H2]].
           ++ split; [now left | exact Hhas].
           ++ split; [now right|]. intros H3. apply H2, in_or_app. now left.
        -- intros [[<- | H1] H2]; [now left|].
           destruct (jsstring_eq_dec (sourceSignature order) signature) as [E | E];
             [now left | right].
           split; [exact H1|]. intros H3. apply in_app_or in H3 as [H3 | [H3 | []]];
             contradiction.
Qed.

(** The same for [insertOrders], which only adds the empty-batch shortcut. *)
Lemma insertOrders_general (now : jsstring) (db : Database)
    (batch : list CreateOrderPayload) :
  exists kept,
    insertOrders now db batch
    = ({| orders := orders db ++ rowsOf now (lastId db) kept;
          lastId := lastId db + length kept |},
       inl {| Db.inserted := length kept;
              Db.skipped := length batch - length kept |})
    /\ (length kept <= length batch)%nat
    /\ (forall order, In order kept -> In order batch)
    /\ NoDup (map sourceSignature kept)
    /\ (forall signature,
          In signature (map sourceSignature kept) <->
          In signature (map sourceSignature batch)
          /\ ~ In signature (storedSignatures db)).
Proof.
  destruct batch as [|order rest].
  - exists []. cbn [insertOrders rowsOf length map].
    rewrite app_nil_r, Nat.add_0_r. destruct db as [rows last].
    split; [reflexivity|]. split; [lia|]. split; [intros o []|].
    split; [constructor|]. intros signature.
    split; [intros [] | intros [[] _]].
  - destruct (insertLoop_general now (order :: rest) db 0 0)
      as (kept & Hrun & Hrest).
    exists kept. unfold insertOrders. rewrite Hrun. split; [reflexivity | exact Hrest].
Qed.



(** *** The order of the rows *)

Lemma StronglySorted_lt_app (front back : list nat) :
  StronglySorted lt front -> StronglySorted lt back ->
  (forall a b, In a front -> In b back -> (a < b)%nat) ->
  StronglySorted lt (front ++ back).
Proof.
  induction front as [|x front IH]; intros Hf Hb Hlt; [exact Hb|].
  apply StronglySorted_inv in Hf as [Hf Hx]. cbn [app]. constructor.
  - apply IH; trivial. intros a b Ha Hb'. apply Hlt; [now right | exact Hb'].
  - rewrite Forall_forall in *. intros y Hy. apply in_app_or in Hy as [Hy | Hy].
    + now apply Hx.
    + apply Hlt; [now left | exact Hy].
Qed.

Lemma StronglySorted_lt_seq (start len : nat) : StronglySorted lt (seq start len).
Proof.
  revert start. induction len as [|len IH]; intros start; cbn [seq]; constructor.
  - apply IH.
  - rewrite Forall_forall. intros y Hy. apply in_seq in Hy. lia.
Qed.

Lemma insertOrders_wellFormed (now : jsstring) (db : Database)
    (batch : list CreateOrderPayload) :
  wellFormed db -> wellFormed (fst (insertOrders now db batch)).
Proof.
  intros (Hsorted & Hbound & Hnodup).
  destruct (insertOrders_general now db batch)
    as (kept & -> & _ & _ & Hkept & Hiff).
  cbn [fst]. unfold wellFormed, storedSignatures. cbn [orders lastId].
  rewrite !map_app, rowsOf_ids, rowsOf_signatures.
  rewrite Forall_forall in Hbound. split; [|split].
  - apply StronglySorted_lt_app; [exact Hsorted | apply StronglySorted_lt_seq |].
    intros a b Ha Hb. apply in_map_iff in Ha as (row & <- & Hrow).
    apply Hbound in Hrow. apply in_seq in Hb. lia.
  - apply Forall_app. split; rewrite Forall_forall.
    + intros row Hrow. apply Hbound in Hrow. lia.
    + intros row Hrow. apply (in_map id) in Hrow.
      rewrite rowsOf_ids in Hrow. apply in_seq in Hrow. lia.
  - apply NoDup_app; [exact Hnodup | exact Hkept |].
    intros signature Hold Hnew. apply Hiff in Hnew as [_ Hnot]. now apply Hnot.
Qed.

Lemma insertByIdDesc_permutation (row : OrderRow) (sorted : list OrderRow) :
  Permutation (insertByIdDesc row sorted) (row :: sorted).
Proof.
  induction sorted as [|first rest IH]; cbn [insertByIdDesc]; [reflexivity|].
  destruct (id first <? id row)%nat; [reflexivity|].
  rewrite IH. apply perm_swap.
Qed.

Lemma orderByIdDesc_permutation (rows : list OrderRow) :
  Permutation (orderByIdDesc rows) rows.
Proof.
  induction rows as [|row rest IH]; cbn [orderByIdDesc fold_right]; [reflexivity|].
  rewrite insertByIdDesc_permutation. now constructor.
Qed.

Lemma insertByIdDesc_sorted (row : OrderRow) (sorted : list OrderRow) :
  StronglySorted (fun a b => (id b <= id a)%nat) sorted ->
  StronglySorted (fun a b => (id b <= id a)%nat) (insertByIdDesc row sorted).
Proof.
  induction sorted as [|first rest IH]; intros Hs; cbn [insertByIdDesc].
  - repeat constructor.
  - apply StronglySorted_inv in Hs as [Hrest Hfirst].
    destruct (Nat.ltb_spec (id first) (id row)) as [Hlt | Hge].
    + constructor; [now constructor|].
      constructor; [lia|]. rewrite Forall_forall in *. intros y Hy.
      apply Hfirst in Hy. lia.
    + constructor; [now apply IH|].
      rewrite Forall_forall in *. intros y Hy.
      apply (Permutation_in _ (insertByIdDesc_permutation row rest)) in Hy.
      destruct Hy as [<- | Hy]; [exact Hge | now apply Hfirst].
Qed.

Lemma orderByIdDesc_sorted (rows : list OrderRow) :
  StronglySorted (fun a b => (id b <= id a)%nat) (orderByIdDesc rows).
Proof.
  induction rows as [|row rest IH]; cbn [orderByIdDesc fold_right];
    [constructor | now apply insertByIdDesc_sorted].
Qed.

Lemma insertByIdDesc_last (row : OrderRow) (sorted : list OrderRow) :
  Forall (fun other => (id row < id other)%nat) sorted ->
  insertByIdDesc row sorted = sorted ++ [row].
Proof.
  induction sorted as [|first rest IH]; intros H; cbn [insertByIdDesc];
    [reflexivity|].
  apply Forall_cons_iff in H as [Hfirst Hrest].
  replace (id first <? id row)%nat with false by (symmetry; apply Nat.ltb_ge; lia).
  now rewrite IH.
Qed.

Lemma orderByIdDesc_increasing (rows : list OrderRow) :
  StronglySorted lt (map id rows) -> orderByIdDesc rows = rev rows.
Proof.
  induction rows as [|row rest IH]; intros Hs; [reflexivity|].
  cbn [map] in Hs. apply StronglySorted_inv in Hs as [Hrest Hrow].
  cbn [orderByIdDesc fold_right rev]. fold (orderByIdDesc rest).
  rewrite IH by exact Hrest. apply insertByIdDesc_last.
  rewrite Forall_forall in *. intros other Hother.
  apply in_rev in Hother. apply Hrow. now apply in_map.
Qed.

Lemma listOrders_wellFormed (db : Database) :
  wellFormed db -> listOrders db = rev (map recordOf (orders db)).
Proof.
  intros (Hsorted & _). unfold listOrders.
  rewrite orderByIdDesc_increasing by exact Hsorted.
  now rewrite map_rev.
Qed.


End Table.



(** X3. insertOrders keeps the table well formed: starting from a table
    whose ids increase along the rows and stay within the AUTOINCREMENT mark
    and whose signatures are pairwise distinct (the empty table is one), the
    table after the call has the same three properties. *)
Theorem insertOrders_keeps_table_wellFormed :
  wellFormed emptyDatabase
  /\ forall now db batch,
       wellFormed db -> wellFormed (fst (Db.insertOrders now db batch)).
Proof.
  split.
  - repeat split; constructor.
  - intros now db batch. apply insertOrders_wellFormed.
Qed.

Lemma insertOrders_keeps_table_wellFormed_witness :
  wellFormed (fst (Db.insertOrders (JS.js "2026-02-24 10:00:00") emptyDatabase
                                   exampleBatch)).
Proof.
  apply (proj2 insertOrders_keeps_table_wellFormed).
  repeat split; constructor.
Defined.


(** X5. listOrders returns every stored row exactly once, by decreasing id;
    on a well-formed table that is the reverse of the insertion order. *)
Theorem listOrders_newest_first :
  forall db,
    Permutation (Db.listOrders db) (map recordOf (Db.orders db))
    /\ StronglySorted (fun a b => (Db.record_id b <= Db.record_id a)%nat)
                      (Db.listOrders db)
    /\ (wellFormed db -> Db.listOrders db = rev (map recordOf (Db.orders db))).
Proof.
  intros db. unfold Db.listOrders. fold recordOf.
  change (fun row => recordOf row) with recordOf. split; [|split].
  - apply Permutation_map, orderByIdDesc_permutation.
  - pose proof (orderByIdDesc_sorted (Db.orders db)) as H.
    induction H as [|row rest Hrest IH Hrow]; cbn [map]; constructor; [exact IH|].
    rewrite Forall_forall in *. intros record Hrecord.
    apply in_map_iff in Hrecord as (other & <- & Hother).
    now apply Hrow.
  - apply listOrders_wellFormed.
Qed.

Lemma listOrders_newest_first_witness :
  Db.listOrders (fst (Db.insertOrders (JS.js "2026-02-24 10:00:00")
                                      emptyDatabase exampleBatch))
  = rev (map recordOf
           (Db.orders (fst (Db.insertOrders (JS.js "2026-02-24 10:00:00")
                                            emptyDatabase exampleBatch)))).
Proof.
  apply (proj2 (proj2 (listOrders_newest_first _))).
  apply insertOrders_wellFormed. repeat split; constructor.
Defined.



(* ================================================================== *)
(** ** POST /orders/bulk *)
(* ================================================================== *)

Section BulkEndpoint.
Import JS Api.

Lemma checkOrder_shape (value : JsValue) (payload : Db.CreateOrderPayload) :
  hasOrderShape value payload -> checkOrder value = Valid [payload].
Proof.
  intros (H1 & H2 & H3 & H4). unfold checkOrder.
  rewrite H1, H2, H3, H4. now destruct payload.
Qed.

Lemma checkOrder_valid (value : JsValue) (batch : list Db.CreateOrderPayload) :
  checkOrder value = Valid batch ->
  exists payload, batch = [payload] /\ hasOrderShape value payload.
Proof.
  unfold checkOrder, hasOrderShape.
  destruct (propertyOf value (js "restaurantName")) as [[| | | |name| |]|];
    try discriminate.
  destruct (propertyOf value (js "totalPrice")) as [[| | |price| | |]|];
    try discriminate.
  destruct (propertyOf value (js "orderedAtText")) as [[| | | |text| |]|];
    try discriminate.
  destruct (propertyOf value (js "sourceSignature")) as [[| | | |signature| |]|];
    try discriminate.
  intros H. injection H as <-. eexists. split; [reflexivity|].
  repeat split.
Qed.

Lemma checkOrder_typeError (value : JsValue) :
  checkOrder value = TypeError <-> isNullish value.
Proof.
  unfold isNullish. split.
  - destruct value; try (intros _; now (left + right)); unfold checkOrder;
      cbn [propertyOf]; try discriminate.
    destruct (lookupProperty (js "restaurantName") properties); try discriminate;
      destruct (lookupProperty (js "totalPrice") properties); try discriminate;
      destruct (lookupProperty (js "orderedAtText") properties); try discriminate;
      destruct (lookupProperty (js "sourceSignature") properties); discriminate.
  - now intros [-> | ->].
Qed.

Lemma checkOrders_shape (items : list JsValue)
    (batch : list Db.CreateOrderPayload) :
  Forall2 hasOrderShape items batch -> checkOrders items = Valid batch.
Proof.
  induction 1 as [|item payload items batch Hshape _ IH]; cbn [checkOrders];
    [reflexivity|].
  now rewrite (checkOrder_shape Hshape), IH.
Qed.

Lemma checkOrders_valid (items : list JsValue) :
  forall batch,
    checkOrders items = Valid batch -> Forall2 hasOrderShape items batch.
Proof.
  induction items as [|item rest IH]; intros batch; cbn [checkOrders].
  - intros H. injection H as <-. constructor.
  - destruct (checkOrder item) as [first| |] eqn:Hitem; try discriminate.
    destruct (checkOrders rest) as [others| |] eqn:Hrest; try discriminate.
    intros H. injection H as <-.
    destruct (checkOrder_valid _ Hitem) as (payload & -> & Hshape).
    constructor; [exact Hshape | now apply IH].
Qed.

Lemma checkOrders_no_typeError (items : list JsValue) :
  (forall item, In item items -> ~ isNullish item) ->
  checkOrders items <> TypeError.
Proof.
  induction items as [|item rest IH]; intros Hnot; cbn [checkOrders];
    [discriminate|].
  destruct (checkOrder item) as [first| |] eqn:Hitem.
  - specialize (IH (fun i Hi => Hnot i (or_intror Hi))).
    destruct (checkOrders rest); [discriminate | discriminate | contradiction].
  - discriminate.
  - apply checkOrder_typeError in Hitem. exfalso. apply (Hnot item); [now left|].
    exact Hitem.
Qed.

End BulkEndpoint.

(** X7. The bulk endpoint accepts a well-shaped body: when body.orders is an
    array whose elements all carry a string restaurantName, a number
    totalPrice, a string orderedAtText and a string sourceSignature, the
    handler answers 201 with the summary of insertOrders on those orders and
    leaves the database as insertOrders left it. *)
Theorem postOrdersBulk_accepts_shaped_orders :
  forall now db body items batch,
    Api.propertyOf body (JS.js "orders") = Some (Api.JsArray items) ->
    Forall2 hasOrderShape items batch ->
    exists summary,
      Db.insertOrders now db batch
      = (fst (Db.insertOrders now db batch), inl summary)
      /\ Api.postOrdersBulk now db body
         = (fst (Db.insertOrders now db batch),
            Api.Responded {| Api.status := 201;
                             Api.json := Api.SummaryJson summary |})
      /\ (Db.inserted summary + Db.skipped summary = length items)%nat.
Proof.
  intros now db body items batch Horders Hshape.
  destruct (insertOrders_general now db batch) as (kept & Hrun & Hlen & _).
  eexists. unfold Api.postOrdersBulk.
  rewrite Horders, (checkOrders_shape Hshape), Hrun. cbn [fst].
  split; [reflexivity|]. split; [reflexivity|].
  cbn [Db.inserted Db.skipped]. rewrite (Forall2_length Hshape). lia.
Qed.

Lemma postOrdersBulk_accepts_shaped_orders_witness :
  exists summary,
    Db.insertOrders (JS.js "2026-02-24 10:00:00") emptyDatabase [samplePayload]
    = (fst (Db.insertOrders (JS.js "2026-02-24 10:00:00") emptyDatabase
                            [samplePayload]),
       inl summary)
    /\ Api.postOrdersBulk (JS.js "2026-02-24 10:00:00") emptyDatabase
         (Api.JsObject [(JS.js "orders", Api.JsArray [sampleOrderValue])])
       = (fst (Db.insertOrders (JS.js "2026-02-24 10:00:00") emptyDatabase
                               [samplePayload]),
          Api.Responded {| Api.status := 201;
                           Api.json := Api.SummaryJson summary |})
    /\ (Db.inserted summary + Db.skipped summary = length [sampleOrderValue])%nat.
Proof.
  apply postOrdersBulk_accepts_shaped_orders.
  - reflexivity.
  - repeat constructor.
Defined.

(** X8. One malformed element rejects the whole batch: when body.orders is
    an array with no null or undefined element and some element fails the
    shape check, the handler answers 400 "Invalid order object in payload."
    and the database is untouched, however many elements are well shaped. *)
Theorem postOrdersBulk_rejects_malformed_element :
  forall now db body items,
    Api.propertyOf body (JS.js "orders") = Some (Api.JsArray items) ->
    (forall item, In item items -> ~ isNullish item) ->
    (exists item, In item items /\ forall payload, ~ hasOrderShape item payload) ->
    Api.postOrdersBulk now db body
    = (db, Api.Responded
             {| Api.status := 400;
                Api.json := Api.ErrorJson (JS.js "Invalid order object in payload.") |}).
Proof.
  intros now db body items Horders Hnotnull (bad & Hbad & Hshape).
  unfold Api.postOrdersBulk. rewrite Horders.
  pose proof (checkOrders_no_typeError items Hnotnull) as Hno.
  destruct (Api.checkOrders items) as [batch| |] eqn:Hcheck;
    [|reflexivity | contradiction].
  exfalso. apply checkOrders_valid in Hcheck.
  clear Hno Horders Hnotnull.
  induction Hcheck as [|item payload items batch Hitem _ IH]; [contradiction|].
  destruct Hbad as [-> | Hbad]; [now apply (Hshape payload) | now apply IH].
Qed.

Lemma postOrdersBulk_rejects_malformed_element_witness :
  Api.postOrdersBulk (JS.js "2026-02-24 10:00:00") emptyDatabase
    (Api.JsObject
       [(JS.js "orders", Api.JsArray [sampleOrderValue; malformedOrderValue])])
  = (emptyDatabase,
     Api.Responded
       {| Api.status := 400;
          Api.json := Api.ErrorJson (JS.js "Invalid order object in payload.") |}).
Proof.
  apply (@postOrdersBulk_rejects_malformed_element _ _ _
           [sampleOrderValue; malformedOrderValue]).
  - reflexivity.
  - intros item [<- | [<- | []]] [H | H]; discriminate H.
  - exists malformedOrderValue. split; [right; now left|].
    intros payload (_ & H & _). discriminate H.
Defined.

(** X9. The bulk endpoint changes the database only when it answers 201:
    for every body the handler answers 201 with a summary, or answers 400, or
    throws, and in the last two cases the database is the one it was given. *)
Theorem postOrdersBulk_changes_only_on_201 :
  forall now db body,
    (exists summary,
       Api.postOrdersBulk now db body
       = (fst (Api.postOrdersBulk now db body),
          Api.Responded {| Api.status := 201;
                           Api.json := Api.SummaryJson summary |}))
    \/ (exists message,
          Api.postOrdersBulk now db body
          = (db, Api.Responded {| Api.status := 400;
                                  Api.json := Api.ErrorJson message |}))
    \/ Api.postOrdersBulk now db body = (db, Api.Threw).
Proof.
  intros now db body. unfold Api.postOrdersBulk.
  destruct (Api.propertyOf body (JS.js "orders")) as [[| | | | |items|]|];
    try (right; left; eexists; reflexivity); [|now right; right].
  destruct (Api.checkOrders items) as [batch| |];
    [| right; left; eexists; reflexivity | now right; right].
  destruct (insertOrders_general now db batch) as (kept & -> & _).
  left. eexists. reflexivity.
Qed.

(* ================================================================== *)
(** ** More about the parser *)
(* ================================================================== *)

Section ParserFacts.
Import JS Parser.

Lemma nonWhiteSpace_replaceWhitespaceRuns (inRun : bool) (s : jsstring) :
  filter nonWhiteSpace (replaceWhitespaceRuns inRun s) = filter nonWhiteSpace s.
Proof.
  revert inRun. induction s as [|c rest IH]; intros inRun; [reflexivity|].
  cbn [replaceWhitespaceRuns filter]. unfold nonWhiteSpace at 2.
  destruct (isWhiteSpace c) eqn:Hc; cbn [negb].
  - destruct inRun; [apply IH|].
    cbn [filter]. unfold nonWhiteSpace at 1.
    change (isWhiteSpace SPACE) with true. cbn [negb]. apply IH.
  - cbn [filter]. unfold nonWhiteSpace at 1. rewrite Hc. cbn [negb].
    now rewrite IH.
Qed.

Lemma nonWhiteSpace_dropWhile (s : jsstring) :
  filter nonWhiteSpace (dropWhile isWhiteSpace s) = filter nonWhiteSpace s.
Proof.
  induction s as [|c rest IH]; [reflexivity|].
  cbn [dropWhile]. destruct (isWhiteSpace c) eqn:Hc; [|reflexivity].
  cbn [filter]. unfold nonWhiteSpace at 2. now rewrite Hc.
Qed.

Lemma nonWhiteSpace_trim (s : jsstring) :
  filter nonWhiteSpace (trim s) = filter nonWhiteSpace s.
Proof.
  unfold trim, trimEnd, trimStart.
  rewrite filter_rev, nonWhiteSpace_dropWhile, <- filter_rev, rev_involutive.
  apply nonWhiteSpace_dropWhile.
Qed.

Lemma nonWhiteSpace_normalizeText (x : jsstring) :
  filter nonWhiteSpace (normalizeText x) = filter nonWhiteSpace x.
Proof.
  unfold normalizeText.
  now rewrite nonWhiteSpace_trim, nonWhiteSpace_replaceWhitespaceRuns.
Qed.

Lemma nonWhiteSpace_none (s : jsstring) :
  filter nonWhiteSpace s = [] <-> forallb isWhiteSpace s = true.
Proof.
  induction s as [|c rest IH]; [now split|].
  cbn [filter forallb]. unfold nonWhiteSpace at 1.
  destruct (isWhiteSpace c); cbn [negb andb]; [exact IH | split; discriminate].
Qed.


(** *** Prices *)

Lemma numberOfRational_sign (p q : Z) :
  isNonNegative (numberOfRational false p q) = true.
Proof.
  unfold numberOfRational.
  destruct (p <=? 0)%Z; [reflexivity|].
  destruct (scaleBy p q (Z.log2 p - Z.log2 q - 52)) as [a0 b0].
  destruct (scaleBy p q _) as [a b].
  destruct (roundHalfEven a b =? 2 ^ 53)%Z.
  - cbv zeta iota beta. change (2 ^ 52)%Z with (Zpos (2 ^ 52)%positive).
    now destruct (971 <? _)%Z.
  - cbv zeta iota beta. destruct (roundHalfEven a b); try reflexivity.
    now destruct (971 <? _)%Z.
Qed.

Lemma numberOfDecimal_sign (d x : Z) :
  isNonNegative (numberOfDecimal false d x) = true.
Proof.
  unfold numberOfDecimal. destruct (0 <=? x)%Z; apply numberOfRational_sign.
Qed.

Lemma strUnsignedDecimalLiteral_price_sign (ds frac : jsstring) :
  forallb isDigit ds = true -> isFractionPart frac -> ds ++ frac <> [] ->
  isNonNegative (strUnsignedDecimalLiteral false (ds ++ frac)) = true.
Proof.
  intros Hds Hfrac Hne. unfold strUnsignedDecimalLiteral.
  destruct (jsstring_eqb (ds ++ frac) (js "Infinity")); [reflexivity|].
  rewrite takeWhile_all_app, dropWhile_all_app by exact Hds.
  destruct Hfrac as [-> | (fs & -> & Hlen & Hfs)].
  - simpl. rewrite !app_nil_r in *.
    destruct ds as [|d ds']; [contradiction|]. simpl.
    apply numberOfDecimal_sign.
  - simpl. change (DOT =? DOT)%N with true. cbv iota.
    rewrite takeWhile_digits, dropWhile_digits by exact Hfs.
    destruct fs as [|f fs']; [simpl in Hlen; lia|].
    rewrite andb_false_r. apply numberOfDecimal_sign.
Qed.

Lemma Number_price_sign (ds frac : jsstring) :
  forallb isDigit ds = true -> isFractionPart frac ->
  isNonNegative (Number (ds ++ frac)) = true.
Proof.
  intros Hds Hfrac.
  assert (Hall : forallb isDigitOrDot (ds ++ frac) = true).
  { rewrite forallb_app, digits_digitOrDot, fraction_digitOrDot; trivial. }
  unfold Number. rewrite trim_without_whitespace by exact Hall.
  destruct (ds ++ frac) as [|c rest] eqn:Ht; [reflexivity|].
  rewrite nonDecimalIntegerLiteral_digits by exact Hall.
  simpl in Hall. apply andb_true_iff in Hall as [Hc _].
  assert (Hplus : (c =? PLUS)%N = false) by code_unit_cases.
  assert (Hminus : (c =? MINUS)%N = false) by code_unit_cases.
  rewrite Hplus, Hminus, <- Ht.
  apply strUnsignedDecimalLiteral_price_sign; trivial.
  rewrite Ht. discriminate.
Qed.

Lemma parsePriceFromText_sign (text : jsstring) (price : number) :
  parsePriceFromText text = Some price -> isNonNegative price = true.
Proof.
  unfold parsePriceFromText.
  destruct (matchPricePattern text) as [group1|] eqn:Hm; [|discriminate].
  destruct (matchPricePattern_sound _ Hm)
    as (pre & ws & body & frac & post & _ & -> & _ & _ & Hbody & Hfrac).
  assert (Hsplit : removeCommas (body ++ frac) = removeCommas body ++ frac).
  { rewrite <- (removeCommas_fraction Hfrac) at 2. apply filter_app. }
  rewrite Hsplit.
  destruct (isNaN _); [discriminate|]. intros H. injection H as <-.
  apply Number_price_sign; [now apply removeCommas_body | exact Hfrac].
Qed.

(** The text before the first dollar sign plays no part. *)
Lemma matchPricePattern_skip (pre rest : jsstring) :
  ~ In DOLLAR pre ->
  matchPricePattern (pre ++ rest) = matchPricePattern rest.
Proof.
  induction pre as [|c pre IH]; intros Hno; [reflexivity|].
  cbn [app matchPricePattern].
  destruct (N.eqb_spec c DOLLAR) as [-> | Hc]; [exfalso; apply Hno; now left|].
  apply IH. intros Hin. apply Hno. now right.
Qed.

(** After the dollar sign and any whitespace, a run of digits and commas
    that ends where the text goes on with something else is the integer part
    of the capture. *)
Lemma matchAfterDollar_body (ws body tail : jsstring) :
  forallb isWhiteSpace ws = true ->
  body <> [] -> forallb isDigitOrComma body = true ->
  startsClean isDigitOrComma tail ->
  matchAfterDollar (ws ++ body ++ tail) = Some (body ++ matchFraction tail).
Proof.
  intros Hws Hne Hbody Htail. unfold matchAfterDollar.
  rewrite dropWhile_all_app by exact Hws.
  assert (Hspace : dropWhile isWhiteSpace (body ++ tail) = body ++ tail).
  { apply startsClean_dropWhile. destruct body as [|b body']; [contradiction|].
    cbn [forallb] in Hbody. apply andb_true_iff in Hbody as [Hb _].
    exact (digitOrComma_not_space _ Hb). }
  rewrite Hspace, takeWhile_all_app, dropWhile_all_app by exact Hbody.
  rewrite (startsClean_dropWhile _ _ Htail).
  assert (Hnone : takeWhile isDigitOrComma tail = []).
  { destruct tail as [|t tail']; [reflexivity|]. cbn [takeWhile].
    cbn [startsClean] in Htail. now rewrite Htail. }
  rewrite Hnone, app_nil_r.
  destruct body as [|b body']; [contradiction | reflexivity].
Qed.

(** *** Timestamp texts *)

Lemma split_comma_free (segment : jsstring) :
  ~ In COMMA segment -> split COMMA segment = [segment].
Proof.
  induction segment as [|c rest IH]; intros Hno; [reflexivity|].
  cbn [split]. destruct (N.eqb_spec c COMMA) as [-> | Hc];
    [exfalso; apply Hno; now left|].
  rewrite IH; [reflexivity|]. intros Hin. apply Hno. now right.
Qed.

Lemma split_at_comma (segment rest : jsstring) :
  ~ In COMMA segment ->
  split COMMA (segment ++ COMMA :: rest) = segment :: split COMMA rest.
Proof.
  induction segment as [|c segment' IH]; intros Hno.
  - cbn [app split]. now rewrite N.eqb_refl.
  - cbn [app split]. destruct (N.eqb_spec c COMMA) as [-> | Hc];
      [exfalso; apply Hno; now left|].
    rewrite IH; [reflexivity|]. intros Hin. apply Hno. now right.
Qed.

Lemma split_canonical (first : jsstring) (others : list jsstring) :
  Forall isCanonicalSegment (first :: others) ->
  split COMMA (join (js ", ") (first :: others))
  = first :: map (fun segment => SPACE :: segment) others.
Proof.
  revert first. induction others as [|second others IH]; intros first Hall.
  - apply Forall_inv in Hall as (_ & Hno & _). cbn [join map].
    now apply split_comma_free.
  - pose proof (Forall_inv Hall) as (_ & Hno & _).
    apply Forall_inv_tail in Hall.
    change (join (js ", ") (first :: second :: others))
      with (first ++ COMMA :: SPACE :: join (js ", ") (second :: others)).
    rewrite split_at_comma by exact Hno.
    cbn [split]. change (SPACE =? COMMA)%N with false. cbv iota.
    now rewrite (IH second Hall).
Qed.

Lemma trim_leading_space (segment : jsstring) :
  trim (SPACE :: segment) = trim segment.
Proof. reflexivity. Qed.

Lemma trimmedSegments_canonical (segments : list jsstring) :
  segments <> [] -> Forall isCanonicalSegment segments ->
  trimmedSegments (join (js ", ") segments) = segments.
Proof.
  intros Hne Hall. destruct segments as [|first others]; [contradiction|].
  unfold trimmedSegments. rewrite split_canonical by exact Hall.
  cbn [map]. rewrite map_map.
  assert (Htrim : forall l, Forall isCanonicalSegment l ->
            filter (fun segment => negb (isEmpty segment))
                   (map (fun segment => trim (SPACE :: segment)) l) = l).
  { induction l as [|x l IHl]; intros Hl; [reflexivity|].
    pose proof (Forall_inv Hl) as (Hx & _ & Hxt).
    cbn [map filter]. rewrite trim_leading_space, Hxt.
    destruct x as [|c x']; [contradiction|]. cbn [isEmpty negb].
    now rewrite (IHl (Forall_inv_tail Hl)). }
  pose proof (Forall_inv Hall) as (Hfirst & _ & Hft).
  cbn [filter]. rewrite Hft.
  destruct first as [|c first']; [contradiction|]. cbn [isEmpty negb].
  now rewrite (Htrim others (Forall_inv_tail Hall)).
Qed.

Lemma trimmedSegments_nonempty (text : jsstring) :
  Forall (fun segment => segment <> []) (trimmedSegments text).
Proof.
  unfold trimmedSegments. rewrite Forall_forall. intros segment Hin.
  apply filter_In in Hin as [_ H]. now destruct segment.
Qed.

Lemma join_nonempty (sep first : jsstring) (others : list jsstring) :
  first <> [] -> join sep (first :: others) <> [].
Proof.
  intros Hfirst. destruct first as [|c first']; [contradiction|].
  destruct others; discriminate.
Qed.

End ParserFacts.

(** X10. normalizeText only touches whitespace: the code units that are not
    whitespace are the same, in the same order, before and after. *)
Theorem normalizeText_keeps_non_whitespace :
  forall x,
    filter nonWhiteSpace (Parser.normalizeText x) = filter nonWhiteSpace x.
Proof. exact nonWhiteSpace_normalizeText. Qed.

(** X11. normalizeText returns the empty string exactly for the texts made
    of whitespace only (the empty text among them). *)
Theorem normalizeText_empty_iff_blank :
  forall x,
    Parser.normalizeText x = [] <-> forallb JS.isWhiteSpace x = true.
Proof.
  intros x. rewrite <- nonWhiteSpace_none, <- nonWhiteSpace_normalizeText. split.
  - now intros ->.
  - intros H. apply nonWhiteSpace_none in H.
    pose proof (trim_startsClean
                  (Parser.replaceWhitespaceRuns false x)) as Hclean.
    fold (Parser.normalizeText x) in Hclean.
    destruct (Parser.normalizeText x) as [|c rest]; [reflexivity|].
    cbn [startsClean] in Hclean. cbn [forallb] in H.
    rewrite Hclean in H. discriminate H.
Qed.

Lemma normalizeText_empty_iff_blank_witness :
  Parser.normalizeText (JS.js "   ") = [].
Proof.
  apply (proj2 (normalizeText_empty_iff_blank (JS.js "   "))). reflexivity.
Defined.

(** X12. A parsed price is never NaN, never negative and never -0: whenever
    parsePriceFromText returns a number it is +0, a positive double or
    +Infinity. *)
Theorem parsePriceFromText_nonnegative :
  forall text price,
    Parser.parsePriceFromText text = Some price -> isNonNegative price = true.
Proof. exact parsePriceFromText_sign. Qed.

Lemma parsePriceFromText_nonnegative_witness :
  isNonNegative (S754_finite false 5429388417957888 (-42)) = true.
Proof.
  apply (parsePriceFromText_nonnegative (JS.js "Total $1,234.5")).
  vm_compute. reflexivity.
Defined.

(** X13. Thousands separators and the text before the first dollar sign do
    not change the price: two texts that differ only in what precedes the
    first dollar sign and in where commas stand among the digits after it
    parse to the same result. *)
Theorem parsePriceFromText_ignores_commas :
  forall pre1 pre2 ws body1 body2 tail,
    ~ In JS.DOLLAR pre1 -> ~ In JS.DOLLAR pre2 ->
    forallb JS.isWhiteSpace ws = true ->
    body1 <> [] -> forallb Parser.isDigitOrComma body1 = true ->
    body2 <> [] -> forallb Parser.isDigitOrComma body2 = true ->
    Parser.removeCommas body1 = Parser.removeCommas body2 ->
    startsClean Parser.isDigitOrComma tail ->
    Parser.parsePriceFromText (pre1 ++ [JS.DOLLAR] ++ ws ++ body1 ++ tail)
    = Parser.parsePriceFromText (pre2 ++ [JS.DOLLAR] ++ ws ++ body2 ++ tail).
Proof.
  intros pre1 pre2 ws body1 body2 tail Hp1 Hp2 Hws Hn1 Hb1 Hn2 Hb2 Heq Htail.
  unfold Parser.parsePriceFromText.
  rewrite (@matchPricePattern_skip pre1 _ Hp1), (@matchPricePattern_skip pre2 _ Hp2).
  cbn [app Parser.matchPricePattern]. rewrite N.eqb_refl.
  rewrite (@matchAfterDollar_body ws body1 tail), (@matchAfterDollar_body ws body2 tail)
    by assumption.
  assert (Happ : forall a b, Parser.removeCommas (a ++ b)
                             = Parser.removeCommas a ++ Parser.removeCommas b)
    by (intros; apply filter_app).
  now rewrite !Happ, Heq.
Qed.

Lemma parsePriceFromText_ignores_commas_witness :
  Parser.parsePriceFromText
    (JS.js "Total: " ++ [JS.DOLLAR] ++ JS.js " " ++ JS.js "1,234" ++ JS.js ".50 CAD")
  = Parser.parsePriceFromText
      ([] ++ [JS.DOLLAR] ++ JS.js " " ++ JS.js "1234" ++ JS.js ".50 CAD").
Proof.
  apply parsePriceFromText_ignores_commas; try reflexivity; try discriminate.
  - intros H. vm_compute in H. intuition discriminate.
  - intros [].
Defined.

(** X14. splitOrderedAtText never drops text silently: the time it returns
    is empty exactly when the text has fewer than three non-empty trimmed
    comma-segments, and then the date is the whole text, unchanged. *)
Theorem splitOrderedAtText_time_empty :
  forall text,
    (Parser.orderedTime (Parser.splitOrderedAtText text) = []
     <-> (length (trimmedSegments text) < 3)%nat)
    /\ (Parser.orderedTime (Parser.splitOrderedAtText text) = [] ->
        Parser.orderedDate (Parser.splitOrderedAtText text) = text)
    /\ (Db.orderedTime (Db.splitOrderedAtText text) = []
        <-> (length (trimmedSegments text) < 3)%nat)
    /\ (Db.orderedTime (Db.splitOrderedAtText text) = [] ->
        Db.orderedDate (Db.splitOrderedAtText text) = text).
Proof.
  intros text.
  pose proof (Parser_splitOrderedAtText_segments text) as HP.
  pose proof (Db_splitOrderedAtText_segments text) as HD.
  pose proof (trimmedSegments_nonempty text) as Hne.
  destruct (trimmedSegments text) as [|first [|second [|third rest]]];
    destruct HP as [HP1 HP2]; destruct HD as [HD1 HD2];
    try (repeat split; intros; cbn [length]; trivial; lia).
  assert (Hthird : third <> []).
  { now apply Forall_inv_tail, Forall_inv_tail, Forall_inv in Hne. }
  pose proof (join_nonempty (JS.js ", ") rest Hthird) as Hjoin.
  rewrite HP2, HD2. cbn [length].
  repeat split; intros H; try contradiction; lia.
Qed.

Lemma splitOrderedAtText_time_empty_witness :
  Parser.orderedDate (Parser.splitOrderedAtText (JS.js "Feb 22, 2026")) = JS.js "Feb 22, 2026".
Proof.
  apply (proj1 (proj2 (splitOrderedAtText_time_empty (JS.js "Feb 22, 2026")))).
  reflexivity.
Defined.

(** X15. Splitting a canonical timestamp text loses nothing: for a text made
    of three or more non-empty, trimmed, comma-free segments joined by ", ",
    the date, ", " and the time put together give the text back, in the
    scraper's copy and in the API's. *)
Theorem splitOrderedAtText_round_trip :
  forall segments,
    (3 <= length segments)%nat ->
    Forall isCanonicalSegment segments ->
    Parser.orderedDate (Parser.splitOrderedAtText (JS.join (JS.js ", ") segments))
      ++ JS.js ", "
      ++ Parser.orderedTime (Parser.splitOrderedAtText (JS.join (JS.js ", ") segments))
    = JS.join (JS.js ", ") segments
    /\ Db.orderedDate (Db.splitOrderedAtText (JS.join (JS.js ", ") segments))
         ++ JS.js ", "
         ++ Db.orderedTime (Db.splitOrderedAtText (JS.join (JS.js ", ") segments))
       = JS.join (JS.js ", ") segments.
Proof.
  intros segments Hlen Hall.
  assert (Hne : segments <> []) by (destruct segments; [cbn in Hlen; lia | discriminate]).
  pose proof (Parser_splitOrderedAtText_segments (JS.join (JS.js ", ") segments)) as HP.
  pose proof (Db_splitOrderedAtText_segments (JS.join (JS.js ", ") segments)) as HD.
  rewrite (trimmedSegments_canonical Hne Hall) in HP, HD.
  destruct segments as [|first [|second [|third rest]]];
    try (cbn [length] in Hlen; lia).
  destruct HP as [-> ->]. destruct HD as [-> ->].
  change (JS.join (JS.js ", ") (first :: second :: third :: rest))
    with (first ++ JS.js ", " ++ second ++ JS.js ", "
          ++ JS.join (JS.js ", ") (third :: rest)).
  rewrite <- !app_assoc. split; reflexivity.
Qed.

Lemma splitOrderedAtText_round_trip_witness :
  Parser.orderedDate
    (Parser.splitOrderedAtText
       (JS.join (JS.js ", ") [JS.js "Feb 22"; JS.js "2026"; JS.js "10:09:13 AM"]))
    ++ JS.js ", "
    ++ Parser.orderedTime
         (Parser.splitOrderedAtText
            (JS.join (JS.js ", ") [JS.js "Feb 22"; JS.js "2026"; JS.js "10:09:13 AM"]))
  = JS.join (JS.js ", ") [JS.js "Feb 22"; JS.js "2026"; JS.js "10:09:13 AM"]
  /\ Db.orderedDate
       (Db.splitOrderedAtText
          (JS.join (JS.js ", ") [JS.js "Feb 22"; JS.js "2026"; JS.js "10:09:13 AM"]))
       ++ JS.js ", "
       ++ Db.orderedTime
            (Db.splitOrderedAtText
               (JS.join (JS.js ", ") [JS.js "Feb 22"; JS.js "2026"; JS.js "10:09:13 AM"]))
     = JS.join (JS.js ", ") [JS.js "Feb 22"; JS.js "2026"; JS.js "10:09:13 AM"].
Proof.
  apply splitOrderedAtText_round_trip.
  - cbn [length]. lia.
  - repeat constructor; try discriminate; try reflexivity;
      intros H; vm_compute in H; intuition discriminate.
Defined.

(* ================================================================== *)
(** ** More about the scraper *)
(* ================================================================== *)

Section ScraperFacts.
Import JS Parser Scraper.






(** *** The expansion loop *)

Variable debug : bool.
Variable count : nat -> nat.

Lemma expandLoop_invariant (remaining : nat) :
  forall j previous stable console,
    (forall i, (i <= j)%nat -> (count i <= previous)%nat) ->
    (exists i, (i + stable <= j)%nat /\ previous = count i) ->
    (stable < 3)%nat ->
    let final := expandLoop debug count remaining (S j) previous stable console in
    (forall i, (i <= iterations final)%nat -> (count i <= previousCount final)%nat)
    /\ (exists i, (i + stablePasses final <= iterations final)%nat
                  /\ previousCount final = count i)
    /\ (stablePasses final <= 3)%nat
    /\ ((iterations final < j + remaining)%nat -> stablePasses final = 3%nat)
    /\ (j <= iterations final <= j + remaining)%nat.
Proof.
  induction remaining as [|r IH];
    intros j previous stable console Hmax (top & Htop & Hprev) Hstable;
    cbn [expandLoop].
  - cbn [iterations previousCount stablePasses].
    replace (S j - 1)%nat with j by lia.
    split; [exact Hmax|]. split; [now exists top|]. lia.
  - destruct (Nat.ltb_spec previous (count (S j))) as [Hgrow | Hflat].
    + specialize (IH (S j) (count (S j)) 0%nat
                     (console ++ debugLog debug
                        (js "expand: iteration=" ++ natToString (S j) ++
                         js ", rows(before=" ++ natToString previous ++
                         js ", after=" ++ natToString (count (S j)) ++ js ")")
                        None)).
      cbv zeta in IH.
      destruct IH as (H1 & H2 & H3 & H4 & H5).
      * intros i Hi. destruct (Nat.eq_dec i (S j)) as [-> | Hne]; [lia|].
        specialize (Hmax i). lia.
      * exists (S j). split; [lia | reflexivity].
      * lia.
      * cbv zeta. repeat split; trivial; try lia;
          try (intros Hlt; apply H4; lia).
    + destruct (Nat.leb_spec 3 (stable + 1)) as [H3 | H3].
      * cbv zeta. cbn [iterations previousCount stablePasses].
        split; [|split; [|lia]].
        -- intros i Hi. destruct (Nat.eq_dec i (S j)) as [-> | Hne]; [lia|].
           apply Hmax. lia.
        -- exists top. split; [lia | exact Hprev].
      * specialize (IH (S j) previous (stable + 1)%nat
                       (console ++ debugLog debug
                          (js "expand: iteration=" ++ natToString (S j) ++
                           js ", rows(before=" ++ natToString previous ++
                           js ", after=" ++ natToString (count (S j)) ++ js ")")
                          None)).
        cbv zeta in IH.
        destruct IH as (H1 & H2 & H4 & H5 & H6).
        -- intros i Hi. destruct (Nat.eq_dec i (S j)) as [-> | Hne]; [lia|].
           apply Hmax. lia.
        -- exists top. split; [lia | exact Hprev].
        -- lia.
        -- cbv zeta. repeat split; trivial; try lia;
             try (intros Hlt; apply H5; lia).
Qed.

Lemma expandLoop_progress (remaining : nat) :
  forall j previous stable console,
    (j <= iterations
            (expandLoop debug count remaining (S j) previous stable console))%nat.
Proof.
  induction remaining as [|r IH]; intros j previous stable console;
    cbn [expandLoop].
  - cbn [iterations]. lia.
  - destruct (previous <? count (S j))%nat.
    + eapply Nat.le_trans; [|apply IH]. lia.
    + destruct (3 <=? stable + 1)%nat; cbn [iterations]; [lia|].
      eapply Nat.le_trans; [|apply IH]. lia.
Qed.

Lemma expandLoop_console (remaining : nat) :
  forall j previous stable console,
    length (expandConsole
              (expandLoop debug count remaining (S j) previous stable console))
    = (length console
       + if debug
         then iterations
                (expandLoop debug count remaining (S j) previous stable console) - j
         else 0)%nat.
Proof.
  induction remaining as [|r IH]; intros j previous stable console;
    cbn [expandLoop].
  - cbn [expandConsole iterations]. destruct debug; lia.
  - assert (Hline : forall message,
              length (console ++ debugLog debug message None)
              = (length console + if debug then 1 else 0)%nat).
    { intros message. rewrite length_app. now destruct debug. }
    destruct (previous <? count (S j))%nat.
    + rewrite IH, Hline.
      pose proof (expandLoop_progress r (S j) (count (S j)) 0
                    (console ++ debugLog debug
                       (js "expand: iteration=" ++ natToString (S j) ++
                        js ", rows(before=" ++ natToString previous ++
                        js ", after=" ++ natToString (count (S j)) ++ js ")")
                       None)) as Hp.
      destruct debug; lia.
    + destruct (3 <=? stable + 1)%nat.
      * cbn [expandConsole iterations]. rewrite Hline. destruct debug; lia.
      * rewrite IH, Hline.
        pose proof (expandLoop_progress r (S j) previous (stable + 1)
                      (console ++ debugLog debug
                         (js "expand: iteration=" ++ natToString (S j) ++
                          js ", rows(before=" ++ natToString previous ++
                          js ", after=" ++ natToString (count (S j)) ++ js ")")
                         None)) as Hp.
        destruct debug; lia.
Qed.

Lemma expandOrdersTableUpTo_invariant (limit : nat) :
  let final := expandOrdersTableUpTo limit debug count in
  (forall i, (i <= iterations final)%nat -> (count i <= previousCount final)%nat)
  /\ (exists i, (i + stablePasses final <= iterations final)%nat
                /\ previousCount final = count i)
  /\ (stablePasses final <= 3)%nat
  /\ ((iterations final < limit)%nat -> stablePasses final = 3%nat)
  /\ (iterations final <= limit)%nat.
Proof.
  pose proof (@expandLoop_invariant limit 0 (count 0%nat) 0 []) as H.
  cbv zeta in *. unfold expandOrdersTableUpTo.
  cbn [iterations previousCount stablePasses].
  destruct H as (H1 & H2 & H3 & H4 & H5).
  - intros i Hi. replace i with 0%nat by lia. lia.
  - exists 0%nat. split; [lia | reflexivity].
  - lia.
  - repeat split; trivial; lia.
Qed.

Lemma expandOrdersTableUpTo_exit (limit : nat) :
  (3 <= limit)%nat ->
  (forall i, (i <= iterations (expandOrdersTableUpTo limit debug count))%nat ->
             (count i
              <= previousCount (expandOrdersTableUpTo limit debug count))%nat)
  /\ (exists i,
        (i + stablePasses (expandOrdersTableUpTo limit debug count)
         <= iterations (expandOrdersTableUpTo limit debug count))%nat
        /\ previousCount (expandOrdersTableUpTo limit debug count) = count i)
  /\ (stablePasses (expandOrdersTableUpTo limit debug count) <= 3)%nat
  /\ ((iterations (expandOrdersTableUpTo limit debug count) < limit)%nat ->
      stablePasses (expandOrdersTableUpTo limit debug count) = 3%nat)
  /\ (3 <= iterations (expandOrdersTableUpTo limit debug count))%nat
  /\ (iterations (expandOrdersTableUpTo limit debug count) <= limit)%nat.
Proof.
  intros Hlimit.
  destruct (expandOrdersTableUpTo_invariant limit)
    as (H1 & (top & Htop & Hprev) & H3 & H4 & H5).
  cbv zeta in *.
  split; [exact H1|]. split; [exists top; split; [exact Htop | exact Hprev]|].
  split; [exact H3|]. split; [exact H4|]. split; [|exact H5].
  destruct (Nat.lt_ge_cases
              (iterations (expandOrdersTableUpTo limit debug count)) limit)
    as [Hlt | Hge]; [|lia].
  apply H4 in Hlt. lia.
Qed.

Lemma expandOrdersTableUpTo_console (limit : nat) :
  length (expandConsole (expandOrdersTableUpTo limit debug count))
  = if debug
    then S (iterations (expandOrdersTableUpTo limit debug count))
    else 0%nat.
Proof.
  unfold expandOrdersTableUpTo. cbn [expandConsole iterations].
  rewrite length_app, expandLoop_console. cbn [length].
  destruct debug; cbn [debugLog negb length]; lia.
Qed.

End ScraperFacts.





(** X19. What the expansion loop guarantees on exit, for every row source:
    the count it holds is the largest of all counts polled so far and was
    first seen at least stablePasses polls before the end; stablePasses never
    exceeds 3; a loop that stops before the 240-iteration cap stops with
    exactly three stable passes; and no loop stops before its third poll. *)
Theorem expandOrdersTable_exit_state :
  forall debug count,
    (forall i, (i <= Scraper.iterations (Scraper.expandOrdersTable debug count))%nat ->
               (count i
                <= Scraper.previousCount (Scraper.expandOrdersTable debug count))%nat)
    /\ (exists i,
          (i + Scraper.stablePasses (Scraper.expandOrdersTable debug count)
           <= Scraper.iterations (Scraper.expandOrdersTable debug count))%nat
          /\ Scraper.previousCount (Scraper.expandOrdersTable debug count) = count i)
    /\ (Scraper.stablePasses (Scraper.expandOrdersTable debug count) <= 3)%nat
    /\ ((Scraper.iterations (Scraper.expandOrdersTable debug count) < 240)%nat ->
        Scraper.stablePasses (Scraper.expandOrdersTable debug count) = 3%nat)
    /\ (3 <= Scraper.iterations (Scraper.expandOrdersTable debug count))%nat
    /\ (Scraper.iterations (Scraper.expandOrdersTable debug count) <= 240)%nat.
Proof.
  unfold Scraper.expandOrdersTable. intros debug count.
  refine (expandOrdersTableUpTo_exit debug count (limit := 240) _).
  repeat constructor.
Qed.

(** X20. The debug lines of the expansion: with debugging on the loop writes
    one line per polling iteration and one more before the settle wait; with
    debugging off it writes nothing. *)
Theorem expandOrdersTable_debug_lines :
  forall count,
    length (Scraper.expandConsole (Scraper.expandOrdersTable true count))
    = S (Scraper.iterations (Scraper.expandOrdersTable true count))
    /\ Scraper.expandConsole (Scraper.expandOrdersTable false count) = [].
Proof.
  intros count. unfold Scraper.expandOrdersTable. split.
  - exact (expandOrdersTableUpTo_console true count 240).
  - pose proof (expandOrdersTableUpTo_console false count 240) as H.
    destruct (Scraper.expandConsole (Scraper.expandOrdersTableUpTo 240 false count));
      [reflexivity | discriminate H].
Qed.



(* ================================================================== *)
(** ** Aggregation into buckets *)
(* ================================================================== *)

Section AggregationFacts.
Import JS Web.
Variable Date : Type.
Variable getKey : Date -> jsstring.

Lemma jsstring_eqb_refl (a : jsstring) : jsstring_eqb a a = true.
Proof. now apply jsstring_eqb_eq. Qed.

Lemma jsstring_eqb_neq (a b : jsstring) : a <> b -> jsstring_eqb a b = false.
Proof.
  intros H. destruct (jsstring_eqb a b) eqn:E; [|reflexivity].
  apply jsstring_eqb_eq in E. contradiction.
Qed.

Lemma mapGet_none (key : jsstring) (map : AggregateMap) :
  mapGet key map = None <-> ~ In key (List.map fst map).
Proof.
  induction map as [|[k a] rest IH]; cbn [mapGet List.map fst In].
  - split; [intros _ [] | reflexivity].
  - destruct (jsstring_eqb k key) eqn:E.
    + apply jsstring_eqb_eq in E. split; [discriminate | intros H; exfalso; apply H; now left].
    + rewrite IH. split.
      * intros H [Hk | Hin]; [|contradiction].
        subst k. now rewrite jsstring_eqb_refl in E.
      * intros H Hin. apply H. now right.
Qed.

Lemma mapGet_update_same (key : jsstring) (change : Aggregate -> Aggregate)
    (map : AggregateMap) :
  mapGet key (mapUpdate key change map) = option_map change (mapGet key map).
Proof.
  induction map as [|[k a] rest IH]; cbn [mapGet mapUpdate]; [reflexivity|].
  destruct (jsstring_eqb k key) eqn:E; cbn [mapGet]; rewrite E;
    [reflexivity | exact IH].
Qed.

Lemma mapGet_update_other (key other : jsstring)
    (change : Aggregate -> Aggregate) (map : AggregateMap) :
  key <> other ->
  mapGet other (mapUpdate key change map) = mapGet other map.
Proof.
  intros Hne. induction map as [|[k a] rest IH]; cbn [mapGet mapUpdate];
    [reflexivity|].
  destruct (jsstring_eqb k key) eqn:E; cbn [mapGet].
  - apply jsstring_eqb_eq in E. subst k.
    now rewrite (jsstring_eqb_neq Hne).
  - destruct (jsstring_eqb k other); [reflexivity | exact IH].
Qed.

Lemma mapGet_app (key : jsstring) (map : AggregateMap)
    (k : jsstring) (a : Aggregate) :
  mapGet key (map ++ [(k, a)])
  = match mapGet key map with
    | Some found => Some found
    | None => if jsstring_eqb k key then Some a else None
    end.
Proof.
  induction map as [|[k' a'] rest IH]; cbn [mapGet app]; [reflexivity|].
  destruct (jsstring_eqb k' key); [reflexivity | exact IH].
Qed.

Lemma mapUpdate_keys (key : jsstring) (change : Aggregate -> Aggregate)
    (map : AggregateMap) :
  List.map fst (mapUpdate key change map) = List.map fst map.
Proof.
  induction map as [|[k a] rest IH]; cbn [mapUpdate List.map fst]; [reflexivity|].
  destruct (jsstring_eqb k key); cbn [List.map fst]; [reflexivity | now rewrite IH].
Qed.

Lemma mapUpdate_orders (key : jsstring) (map : AggregateMap) (price : number) :
  mapGet key map <> None ->
  list_sum (List.map (fun entry => totalOrders (snd entry))
              (mapUpdate key
                 (fun existing =>
                    {| totalSpend := add (totalSpend existing) price;
                       totalOrders := totalOrders existing + 1 |})
                 map))
  = S (list_sum (List.map (fun entry => totalOrders (snd entry)) map)).
Proof.
  induction map as [|[k a] rest IH]; cbn [mapGet mapUpdate]; [contradiction|].
  unfold list_sum in *.
  destruct (jsstring_eqb k key); cbn [List.map fold_right snd totalOrders].
  - intros _. lia.
  - intros H. rewrite (IH H). lia.
Qed.

(** What one item does to the entry of a key. *)
Lemma mapGet_aggregateItem (key : jsstring) (map : AggregateMap)
    (item : ParsedOrder Date) :
  mapGet key (aggregateItem getKey map item)
  = if jsstring_eqb (getKey (date item)) key
    then match mapGet key map with
         | Some existing =>
             Some {| totalSpend := add (totalSpend existing) (totalPrice item);
                     totalOrders := totalOrders existing + 1 |}
         | None => Some {| totalSpend := totalPrice item; totalOrders := 1 |}
         end
    else mapGet key map.
Proof.
  unfold aggregateItem.
  destruct (jsstring_eqb (getKey (date item)) key) eqn:E.
  - apply jsstring_eqb_eq in E. rewrite E.
    destruct (mapGet key map) as [existing|] eqn:Hget.
    + now rewrite mapGet_update_same, Hget.
    + now rewrite mapGet_app, Hget, jsstring_eqb_refl.
  - assert (Hne : getKey (date item) <> key).
    { intros H. rewrite H, jsstring_eqb_refl in E. discriminate E. }
    destruct (mapGet (getKey (date item)) map) eqn:Hget.
    + now apply mapGet_update_other.
    + rewrite mapGet_app, E. now destruct (mapGet key map).
Qed.

Lemma mapGet_fold (key : jsstring) (items : list (ParsedOrder Date)) :
  forall map,
    mapGet key (fold_left (aggregateItem getKey) items map)
    = match mapGet key map with
      | Some existing =>
          Some {| totalSpend :=
                    fold_left add
                      (List.map (@totalPrice Date) (itemsWithKey getKey key items))
                      (totalSpend existing);
                  totalOrders :=
                    totalOrders existing
                    + length (itemsWithKey getKey key items) |}
      | None => aggregateOf (itemsWithKey getKey key items)
      end.
Proof.
  induction items as [|item rest IH]; intros map.
  - cbn [fold_left itemsWithKey filter List.map length aggregateOf].
    destruct (mapGet key map) as [[spend orders]|]; [|reflexivity].
    cbn [totalSpend totalOrders]. now rewrite Nat.add_0_r.
  - cbn [fold_left]. rewrite IH, mapGet_aggregateItem.
    unfold itemsWithKey. cbn [filter]. fold (itemsWithKey getKey key rest).
    destruct (jsstring_eqb (getKey (date item)) key).
    + destruct (mapGet key map) as [existing|];
        cbn [List.map fold_left length totalSpend totalOrders aggregateOf];
        do 2 f_equal; lia.
    + reflexivity.
Qed.

Lemma aggregateItem_keys (map : AggregateMap) (item : ParsedOrder Date) :
  NoDup (List.map fst map) ->
  NoDup (List.map fst (aggregateItem getKey map item)).
Proof.
  intros Hnodup. unfold aggregateItem.
  destruct (mapGet (getKey (date item)) map) eqn:Hget.
  - now rewrite mapUpdate_keys.
  - rewrite map_app. cbn [List.map fst]. apply NoDup_app; [exact Hnodup | | ].
    + repeat constructor. intros [].
    + intros k Hk [<- | []]. now apply mapGet_none in Hget.
Qed.

Lemma aggregateItem_orders (map : AggregateMap) (item : ParsedOrder Date) :
  list_sum (List.map (fun entry => totalOrders (snd entry))
              (aggregateItem getKey map item))
  = S (list_sum (List.map (fun entry => totalOrders (snd entry)) map)).
Proof.
  unfold aggregateItem.
  destruct (mapGet (getKey (date item)) map) eqn:Hget.
  - apply mapUpdate_orders. rewrite Hget. discriminate.
  - rewrite map_app, list_sum_app. unfold list_sum.
    cbn [List.map fold_right snd totalOrders]. lia.
Qed.

Lemma fold_aggregateItem_invariant (items : list (ParsedOrder Date)) :
  forall map,
    NoDup (List.map fst map) ->
    NoDup (List.map fst (fold_left (aggregateItem getKey) items map))
    /\ list_sum (List.map (fun entry => totalOrders (snd entry))
                  (fold_left (aggregateItem getKey) items map))
       = (list_sum (List.map (fun entry => totalOrders (snd entry)) map)
          + length items)%nat.
Proof.
  induction items as [|item rest IH]; intros map Hnodup; cbn [fold_left length].
  - split; [exact Hnodup | lia].
  - destruct (IH _ (@aggregateItem_keys map item Hnodup)) as [H1 H2].
    split; [exact H1|]. rewrite H2, aggregateItem_orders. lia.
Qed.

Lemma buildAggregateMap_groups (items : list (ParsedOrder Date)) (key : jsstring) :
  mapGet key (buildAggregateMap items getKey)
  = aggregateOf (itemsWithKey getKey key items).
Proof. unfold buildAggregateMap. now rewrite mapGet_fold. Qed.

End AggregationFacts.

(** X22. buildAggregateMap groups by key: the entry of a key counts the
    items that fall under it and holds their prices added up in input order,
    and a key under which no item falls has no entry. *)
Theorem buildAggregateMap_groups_by_key :
  forall (Date : Type) (items : list (Web.ParsedOrder Date))
         (getKey : Date -> JS.jsstring) (key : JS.jsstring),
    Web.mapGet key (Web.buildAggregateMap items getKey)
    = aggregateOf (itemsWithKey getKey key items).
Proof.
  intros Date items getKey key. apply buildAggregateMap_groups.
Qed.

(** X23. buildAggregateMap loses and repeats nothing: the keys of the map
    are pairwise distinct and the order counts of its entries add up to the
    number of items. *)
Theorem buildAggregateMap_counts_every_item :
  forall (Date : Type) (items : list (Web.ParsedOrder Date))
         (getKey : Date -> JS.jsstring),
    NoDup (map fst (Web.buildAggregateMap items getKey))
    /\ list_sum (map (fun entry => Web.totalOrders (snd entry))
                    (Web.buildAggregateMap items getKey))
       = length items.
Proof.
  intros Date items getKey. unfold Web.buildAggregateMap.
  destruct (@fold_aggregateItem_invariant Date getKey items []) as [H1 H2];
    [constructor|].
  split; [exact H1 | exact H2].
Qed.

(** X24. materializeBuckets yields one bucket per period start, in order,
    keyed and labelled by getKey and getLabel; over the map built from the
    items, a bucket counts the items of its key, a period without items gets
    spend 0, count 0 and average 0 (no division by zero), and otherwise the
    average is the spend divided by the count. *)
Theorem materializeBuckets_over_items :
  forall (Date : Type) (periodStarts : list Date)
         (items : list (Web.ParsedOrder Date))
         (getKey getLabel : Date -> JS.jsstring),
    let buckets :=
      Web.materializeBuckets periodStarts (Web.buildAggregateMap items getKey)
                             getKey getLabel in
    map (@Web.key) buckets = map getKey periodStarts
    /\ map (@Web.label) buckets = map getLabel periodStarts
    /\ forall bucket, In bucket buckets ->
         Web.bucketTotalOrders bucket
         = length (itemsWithKey getKey (Web.key bucket) items)
         /\ (Web.bucketTotalOrders bucket = 0%nat ->
             Web.bucketTotalSpend bucket = S754_zero false
             /\ Web.avgSpendPerOrder bucket = S754_zero false)
         /\ ((0 < Web.bucketTotalOrders bucket)%nat ->
             Web.avgSpendPerOrder bucket
             = JS.div (Web.bucketTotalSpend bucket)
                      (JS.numberOfNat (Web.bucketTotalOrders bucket))).
Proof.
  intros Date periodStarts items getKey getLabel buckets. subst buckets.
  unfold Web.materializeBuckets. rewrite !map_map. cbn [Web.key Web.label].
  split; [reflexivity|]. split; [reflexivity|].
  intros bucket Hin. apply in_map_iff in Hin as (date & <- & _).
  cbn [Web.key Web.bucketTotalOrders Web.bucketTotalSpend Web.avgSpendPerOrder].
  rewrite buildAggregateMap_groups.
  destruct (itemsWithKey getKey (getKey date) items) as [|first others];
    cbn [aggregateOf Web.totalOrders Web.totalSpend length].
  - split; [reflexivity|].
    split; [intros _; split; reflexivity | intros H; inversion H].
  - split; [reflexivity|].
    split; [intros H; discriminate H | intros _; reflexivity].
Qed.

(* ================================================================== *)
(** ** Bucket keys and week labels *)
(* ================================================================== *)

Section KeyFacts.
Import JS Web.

Lemma split_free (sep : code_unit) (segment : jsstring) :
  ~ In sep segment -> split sep segment = [segment].
Proof.
  induction segment as [|c rest IH]; intros Hno; [reflexivity|].
  cbn [split]. destruct (N.eqb_spec c sep) as [-> | Hc];
    [exfalso; apply Hno; now left|].
  rewrite IH; [reflexivity|]. intros Hin. apply Hno. now right.
Qed.

Lemma split_at (sep : code_unit) (segment rest : jsstring) :
  ~ In sep segment ->
  split sep (segment ++ sep :: rest) = segment :: split sep rest.
Proof.
  induction segment as [|c segment' IH]; intros Hno.
  - cbn [app split]. now rewrite N.eqb_refl.
  - cbn [app split]. destruct (N.eqb_spec c sep) as [-> | Hc];
      [exfalso; apply Hno; now left|].
    rewrite IH; [reflexivity|]. intros Hin. apply Hno. now right.
Qed.

Lemma uintDigits_digits (u : Decimal.uint) :
  Forall (fun c => isDigit c = true) (uintDigits u).
Proof. induction u; cbn [uintDigits]; constructor; auto. Qed.

Lemma integerToString_digits (n : Z) :
  (0 <= n)%Z -> Forall (fun c => isDigit c = true) (integerToString n).
Proof.
  intros Hn. unfold integerToString.
  destruct (Z.ltb_spec n 0) as [Hlt | _]; [lia|]. apply uintDigits_digits.
Qed.

Lemma integerToString_no_minus (n : Z) :
  (0 <= n)%Z -> ~ In MINUS (integerToString n).
Proof.
  intros Hn Hin.
  pose proof (proj1 (Forall_forall _ _) (integerToString_digits Hn) _ Hin) as H.
  discriminate H.
Qed.

Lemma uintDigits_injective (u v : Decimal.uint) :
  uintDigits u = uintDigits v -> u = v.
Proof.
  revert v. induction u; intros v H; destruct v; cbn [uintDigits] in H;
    try discriminate H; try reflexivity;
    injection H as H; f_equal; now apply IHu.
Qed.

Lemma integerToString_injective (m n : Z) :
  (0 <= m)%Z -> (0 <= n)%Z -> integerToString m = integerToString n -> m = n.
Proof.
  intros Hm Hn. unfold integerToString.
  destruct (Z.ltb_spec m 0) as [? | _]; [lia|].
  destruct (Z.ltb_spec n 0) as [? | _]; [lia|].
  unfold decimalDigits. intros H. apply uintDigits_injective in H.
  apply (f_equal N.of_uint) in H. rewrite !DecimalN.Unsigned.of_to in H. lia.
Qed.

(** The month part of a key: two digits that read back as the month. *)
Lemma monthPart (month : nat) :
  (month < 12)%nat ->
  let part := padStart 2 ZERO (integerToString (Z.of_nat (month + 1))) in
  split MINUS part = [part]
  /\ sub (Number part) (numberOfNat 1) = numberOfNat month.
Proof.
  intros H.
  do 12 (destruct month as [|month]; [vm_compute; split; reflexivity|]).
  lia.
Qed.

Lemma numberOfNat_month_injective (m n : nat) :
  (m < 12)%nat -> (n < 12)%nat -> numberOfNat m = numberOfNat n -> m = n.
Proof.
  intros Hm Hn.
  do 12 (destruct m as [|m];
         [do 12 (destruct n as [|n];
                 [vm_compute; intros H; first [reflexivity | discriminate H]|]);
          lia|]).
  lia.
Qed.

Lemma matchWeekSuffixAt_length (s capture : jsstring) :
  matchWeekSuffixAt s = Some capture -> length s = 4%nat.
Proof.
  destruct s as [|c1 [|c2 [|c3 [|c4 [|c5 rest]]]]]; cbn [matchWeekSuffixAt];
    first [discriminate | reflexivity].
Qed.

(** The pattern ends with [$]: code units before the last four are skipped. *)
Lemma matchWeekSuffix_skip (prefix tail : jsstring) :
  length tail = 4%nat ->
  matchWeekSuffix (prefix ++ tail) = matchWeekSuffix tail.
Proof.
  intros Htail. induction prefix as [|c prefix' IH]; [reflexivity|].
  cbn [app]. destruct (matchWeekSuffixAt (c :: prefix' ++ tail)) as [capture|] eqn:E.
  - apply matchWeekSuffixAt_length in E. cbn [length] in E.
    rewrite length_app in E. lia.
  - change (matchWeekSuffix (c :: prefix' ++ tail))
      with (match matchWeekSuffixAt (c :: prefix' ++ tail) with
            | Some capture => Some capture
            | None => matchWeekSuffix (prefix' ++ tail)
            end).
    rewrite E. exact IH.
Qed.

(** The week part of a key: matched by the pattern, and read back as the
    week. *)
Lemma weekPart (week : nat) :
  (1 <= week <= 53)%nat ->
  let tail := [MINUS; LETTER_W]
              ++ padStart 2 ZERO (integerToString (Z.of_nat week)) in
  length tail = 4%nat
  /\ match matchWeekSuffix tail with
     | Some capture =>
         sub (Number capture) (numberOfNat 1) = numberOfNat (week - 1)
     | None => False
     end.
Proof.
  intros [Hlo Hhi].
  destruct week as [|week]; [lia|].
  do 53 (destruct week as [|week]; [vm_compute; split; reflexivity|]).
  lia.
Qed.

Section Labels.
Variable Date : Type.
Variable getFullYear : Date -> Z.
Variable getMonth getDate : Date -> nat.

Lemma monthKey_read_back (date : Date) :
  (0 <= getFullYear date)%Z -> (getMonth date < 12)%nat ->
  yearFromBucketKey (monthKey getFullYear getMonth date)
  = yearKey getFullYear date
  /\ monthIndexFromBucketKey (monthKey getFullYear getMonth date)
     = numberOfNat (getMonth date).
Proof.
  intros Hyear Hmonth. destruct (monthPart Hmonth) as [Hsplit Hnumber].
  unfold yearFromBucketKey, monthIndexFromBucketKey, monthKey, yearKey.
  cbn [app]. rewrite (@split_at MINUS _ _ (integerToString_no_minus Hyear)), Hsplit.
  split; [reflexivity | exact Hnumber].
Qed.

Lemma weekStartLabelsFrom_length (weekStarts : list Date) :
  forall previousYear,
    length (weekStartLabelsFrom getFullYear getMonth getDate previousYear weekStarts)
    = length weekStarts.
Proof.
  induction weekStarts as [|weekStart rest IH]; intros previousYear;
    cbn [weekStartLabelsFrom length]; [reflexivity | now rewrite IH].
Qed.

Lemma weekStartLabelsFrom_nth (weekStarts : list Date) :
  forall previousYear index weekStart,
    nth_error weekStarts index = Some weekStart ->
    nth_error (weekStartLabelsFrom getFullYear getMonth getDate previousYear weekStarts)
              index
    = Some (weekStartLabel getFullYear getMonth getDate weekStart
              match index with
              | O => match previousYear with
                     | None => true
                     | Some previous => negb (getFullYear weekStart =? previous)%Z
                     end
              | S before =>
                  match nth_error weekStarts before with
                  | Some previous =>
                      negb (getFullYear weekStart =? getFullYear previous)%Z
                  | None => true
                  end
              end).
Proof.
  induction weekStarts as [|first rest IH]; intros previousYear index weekStart Hnth.
  - destruct index; discriminate Hnth.
  - destruct index as [|index]; cbn [nth_error weekStartLabelsFrom] in *.
    + injection Hnth as <-. reflexivity.
    + rewrite (IH (Some (getFullYear first)) index weekStart Hnth).
      destruct index as [|index]; reflexivity.
Qed.

End Labels.

End KeyFacts.

(** X25. A month bucket key reads back: for a date of a year from 0 on,
    yearFromBucketKey of its monthKey is its yearKey and
    monthIndexFromBucketKey of its monthKey is its month (from 0). *)
Theorem monthKey_round_trip :
  forall (Date : Type) (getFullYear : Date -> Z) (getMonth : Date -> nat)
         (date : Date),
    (0 <= getFullYear date)%Z -> (getMonth date < 12)%nat ->
    Web.yearFromBucketKey (Web.monthKey getFullYear getMonth date)
    = Web.yearKey getFullYear date
    /\ Web.monthIndexFromBucketKey (Web.monthKey getFullYear getMonth date)
       = JS.numberOfNat (getMonth date).
Proof.
  intros Date getFullYear getMonth date. apply monthKey_read_back.
Qed.

Lemma monthKey_round_trip_witness :
  Web.yearFromBucketKey
    (Web.monthKey calendarYear calendarMonth
       {| calendarYear := 2026; calendarMonth := 1; calendarDay := 24 |})
  = JS.js "2026"
  /\ Web.monthIndexFromBucketKey
       (Web.monthKey calendarYear calendarMonth
          {| calendarYear := 2026; calendarMonth := 1; calendarDay := 24 |})
     = JS.numberOfNat 1.
Proof.
  apply (@monthKey_round_trip CalendarDate calendarYear calendarMonth
           {| calendarYear := 2026; calendarMonth := 1; calendarDay := 24 |});
    cbn; lia.
Defined.

(** X26. monthKey separates the months: two dates of years from 0 on get
    the same month key exactly when they have the same year and the same
    month, so a month bucket never mixes orders of different months. *)
Theorem monthKey_same_iff_same_month :
  forall (Date : Type) (getFullYear : Date -> Z) (getMonth : Date -> nat)
         (first second : Date),
    (0 <= getFullYear first)%Z -> (0 <= getFullYear second)%Z ->
    (getMonth first < 12)%nat -> (getMonth second < 12)%nat ->
    (Web.monthKey getFullYear getMonth first
     = Web.monthKey getFullYear getMonth second
     <-> getFullYear first = getFullYear second
         /\ getMonth first = getMonth second).
Proof.
  intros Date getFullYear getMonth first second Hy1 Hy2 Hm1 Hm2. split.
  - intros Hkey.
    destruct (@monthKey_read_back Date getFullYear getMonth first Hy1 Hm1)
      as [Hyear1 Hmonth1].
    destruct (@monthKey_read_back Date getFullYear getMonth second Hy2 Hm2)
      as [Hyear2 Hmonth2].
    rewrite Hkey, Hyear2 in Hyear1. rewrite Hkey, Hmonth2 in Hmonth1.
    split.
    + symmetry. now apply integerToString_injective.
    + symmetry. now apply numberOfNat_month_injective.
  - intros [Hyear Hmonth]. unfold Web.monthKey. now rewrite Hyear, Hmonth.
Qed.

Lemma monthKey_same_iff_same_month_witness :
  Web.monthKey calendarYear calendarMonth
    {| calendarYear := 2026; calendarMonth := 1; calendarDay := 3 |}
  = Web.monthKey calendarYear calendarMonth
      {| calendarYear := 2026; calendarMonth := 1; calendarDay := 24 |}
  <-> 2026%Z = 2026%Z /\ 1%nat = 1%nat.
Proof.
  apply (@monthKey_same_iff_same_month CalendarDate calendarYear calendarMonth
           {| calendarYear := 2026; calendarMonth := 1; calendarDay := 3 |}
           {| calendarYear := 2026; calendarMonth := 1; calendarDay := 24 |});
    cbn; lia.
Defined.

(** X27. A week bucket key reads back: for an ISO week 1..53 of a year from
    0 on, yearFromBucketKey of the weekKey is the ISO year as written in the
    key and weekIndexFromBucketKey of the weekKey is the week minus one. *)
Theorem weekKey_round_trip :
  forall (Date : Type) (isoWeekInfo : Date -> Web.IsoWeekInfo) (date : Date),
    (0 <= Web.year (isoWeekInfo date))%Z ->
    (1 <= Web.week (isoWeekInfo date) <= 53)%nat ->
    Web.yearFromBucketKey (Web.weekKey isoWeekInfo date)
    = JS.integerToString (Web.year (isoWeekInfo date))
    /\ Web.weekIndexFromBucketKey (Web.weekKey isoWeekInfo date)
       = JS.numberOfNat (Web.week (isoWeekInfo date) - 1).
Proof.
  intros Date isoWeekInfo date Hyear Hweek.
  unfold Web.weekKey. cbn zeta. split.
  - unfold Web.yearFromBucketKey. cbn [app].
    now rewrite (@split_at JS.MINUS _ _ (integerToString_no_minus Hyear)).
  - unfold Web.weekIndexFromBucketKey.
    destruct (weekPart Hweek) as [Hlength Hmatch].
    rewrite (@matchWeekSuffix_skip _ _ Hlength).
    destruct (Web.matchWeekSuffix _) as [capture|]; [exact Hmatch | contradiction].
Qed.

Lemma weekKey_round_trip_witness :
  Web.yearFromBucketKey
    (Web.weekKey (fun _ : unit => {| Web.year := 2026; Web.week := 9 |}) tt)
  = JS.js "2026"
  /\ Web.weekIndexFromBucketKey
       (Web.weekKey (fun _ : unit => {| Web.year := 2026; Web.week := 9 |}) tt)
     = JS.numberOfNat 8.
Proof.
  apply (@weekKey_round_trip unit
           (fun _ : unit => {| Web.year := 2026; Web.week := 9 |}) tt);
    cbn; lia.
Defined.

(** X28. weekStartLabels yields one label per week start, in order; the
    label of a week start shows the year exactly when it is the first of the
    list or its year differs from the year of the week start before it. *)
Theorem weekStartLabels_year_on_change :
  forall (Date : Type) (getFullYear : Date -> Z) (getMonth getDate : Date -> nat)
         (weekStarts : list Date),
    length (Web.weekStartLabels getFullYear getMonth getDate weekStarts)
    = length weekStarts
    /\ forall index weekStart,
         nth_error weekStarts index = Some weekStart ->
         nth_error (Web.weekStartLabels getFullYear getMonth getDate weekStarts)
                   index
         = Some (Web.weekStartLabel getFullYear getMonth getDate weekStart
                   (showsYear getFullYear weekStarts index weekStart)).
Proof.
  intros Date getFullYear getMonth getDate weekStarts.
  unfold Web.weekStartLabels. split.
  - apply weekStartLabelsFrom_length.
  - intros index weekStart Hnth.
    now rewrite (@weekStartLabelsFrom_nth Date getFullYear getMonth getDate
                   weekStarts None index weekStart Hnth).
Qed.

Lemma weekStartLabels_year_on_change_witness :
  nth_error
    (Web.weekStartLabels calendarYear calendarMonth calendarDay
       [ {| calendarYear := 2025; calendarMonth := 11; calendarDay := 29 |};
         {| calendarYear := 2026; calendarMonth := 0; calendarDay := 5 |};
         {| calendarYear := 2026; calendarMonth := 0; calendarDay := 12 |} ])
    2
  = Some (JS.js "1/12").
Proof.
  apply (proj2 (@weekStartLabels_year_on_change CalendarDate calendarYear
                  calendarMonth calendarDay
                  [ {| calendarYear := 2025; calendarMonth := 11; calendarDay := 29 |};
                    {| calendarYear := 2026; calendarMonth := 0; calendarDay := 5 |};
                    {| calendarYear := 2026; calendarMonth := 0; calendarDay := 12 |} ])
               2%nat
               {| calendarYear := 2026; calendarMonth := 0; calendarDay := 12 |}).
  reflexivity.
Defined.
